(** * gitflow-cli-tool: the branch-lifecycle engine of [src/GitFlow.js]

    A shallow embedding of the [GitFlow] class, of [validateVersion] from
    [src/utils.js] and of the command table of the CLI entry point, followed
    by the properties of the specification that were checked against it.

    Conventions of the embedding.
    - A JavaScript string is a [string] of bytes; [trim] strips the ASCII
      white space characters, which is what delimits the outputs of the git
      commands read here.
    - [process.exit(1)] ends the run: every method returns either [Ok v] or
      [Exit text], where [text] is what was written with [console.error]
      just before exiting.  Output written with [console.info] is not kept.
    - [shell.exec] is a parameter: a function from a command line and the
      state of the outside world to a result and a new state of the world.
    - Every instance carries, next to its command queue, the history of what
      it enqueued and executed, oldest event first. *)

From Stdlib Require Import String Ascii List ZArith Bool Arith Lia.
Import ListNotations.
Local Open Scope list_scope.
Local Open Scope string_scope.

(** ** JavaScript string primitives used by the source *)

Module Js.

(** A string is kept as the bytes of its UTF-8 encoding, as the text that
    the shell hands to the program is; a character outside ASCII is two,
    three or four bytes, of which the first alone tells the length.

    The white space and the line terminators of ECMAScript, which [trim]
    strips.  One byte: U+0009 to U+000D and U+0020. *)
Definition isWhiteSpace (c : ascii) : bool :=
  let n := nat_of_ascii c in
  ((9 <=? n)%nat && (n <=? 13)%nat) || (n =? 32)%nat.

(** Two bytes: U+00A0. *)
Definition isWhiteSpace2 (c d : ascii) : bool :=
  (nat_of_ascii c =? 194)%nat && (nat_of_ascii d =? 160)%nat.

(** Three bytes: U+1680; U+2000 to U+200A, U+2028, U+2029 and U+202F;
    U+205F; U+3000; U+FEFF. *)
Definition isWhiteSpace3 (c d e : ascii) : bool :=
  let n1 := nat_of_ascii c in
  let n2 := nat_of_ascii d in
  let n3 := nat_of_ascii e in
  ((n1 =? 225)%nat && (n2 =? 154)%nat && (n3 =? 128)%nat) ||
  ((n1 =? 226)%nat && (n2 =? 128)%nat &&
   (((128 <=? n3)%nat && (n3 <=? 138)%nat) || (n3 =? 168)%nat || (n3 =? 169)%nat ||
    (n3 =? 175)%nat)) ||
  ((n1 =? 226)%nat && (n2 =? 129)%nat && (n3 =? 159)%nat) ||
  ((n1 =? 227)%nat && (n2 =? 128)%nat && (n3 =? 128)%nat) ||
  ((n1 =? 239)%nat && (n2 =? 187)%nat && (n3 =? 191)%nat).

Definition isEmpty (s : string) : bool :=
  match s with EmptyString => true | String _ _ => false end.

(** [String.prototype.trimStart]: the white space at the head is dropped,
    one character at a time *)
Fixpoint trimStart (s : string) : string :=
  match s with
  | EmptyString => EmptyString
  | String c r =>
      if isWhiteSpace c then trimStart r
      else
        match r with
        | EmptyString => s
        | String d r2 =>
            if isWhiteSpace2 c d then trimStart r2
            else
              match r2 with
              | EmptyString => s
              | String e r3 => if isWhiteSpace3 c d e then trimStart r3 else s
              end
        end
  end.

(** [String.prototype.trimEnd]: the longest end of the string that is white
    space only is dropped *)
Fixpoint trimEnd (s : string) : string :=
  match s with
  | EmptyString => EmptyString
  | String c r => if isEmpty (trimStart s) then EmptyString else String c (trimEnd r)
  end.

(** [String.prototype.trim] *)
Definition trim (s : string) : string := trimEnd (trimStart s).

(** [String.prototype.split] with a one-character separator *)
Fixpoint split (sep : ascii) (s : string) : list string :=
  match s with
  | EmptyString => [EmptyString]
  | String c r =>
      if Ascii.eqb c sep then EmptyString :: split sep r
      else match split sep r with
           | h :: t => String c h :: t
           | [] => [String c EmptyString]
           end
  end.

(** [Array.prototype.join] *)
Fixpoint join (sep : string) (l : list string) : string :=
  match l with
  | [] => EmptyString
  | [x] => x
  | x :: r => x ++ sep ++ join sep r
  end.

(** A string in a boolean position: only the empty string is falsy. *)
Definition truthy (s : string) : bool := negb (isEmpty s).

(** [${b}] for a boolean [b] *)
Definition showBool (b : bool) : string := if b then "true" else "false".

(** [${v}] for a value that is a string or [undefined] *)
Definition showOpt (v : option string) : string :=
  match v with Some s => s | None => "undefined" end.

Definition newline : ascii := "010"%char.
Definition dquote : string := String "034"%char EmptyString.

(** [s.replace(c, '')] for a one-character string [c]: the first occurrence
    of the character is removed *)
Fixpoint removeFirst (c : ascii) (s : string) : string :=
  match s with
  | EmptyString => EmptyString
  | String a r => if Ascii.eqb a c then r else String a (removeFirst c r)
  end.

End Js.

(** ** Regular expressions

    The two regular-expression literals of the source are kept as syntax
    trees; [test] is [RegExp.prototype.test] for a pattern without flags. *)

Module Regex.

Inductive regex : Type :=
| Eps : regex
| Class (negated : bool) (ranges : list (ascii * ascii)) : regex
| Cat (r1 r2 : regex) : regex
| Alt (r1 r2 : regex) : regex
| Star (r : regex) : regex.

Record pattern : Type := Pattern {
  fromStart : bool;   (* the pattern opens with ^ *)
  toEnd : bool;       (* the pattern closes with $ *)
  body : regex
}.

Definition inRange (c : ascii) (rg : ascii * ascii) : bool :=
  (nat_of_ascii (fst rg) <=? nat_of_ascii c)%nat && (nat_of_ascii c <=? nat_of_ascii (snd rg))%nat.

Definition inClass (negated : bool) (ranges : list (ascii * ascii)) (c : ascii) : bool :=
  xorb negated (existsb (inRange c) ranges).

Fixpoint nullable (r : regex) : bool :=
  match r with
  | Eps => true
  | Class _ _ => false
  | Cat r1 r2 => nullable r1 && nullable r2
  | Alt r1 r2 => nullable r1 || nullable r2
  | Star _ => true
  end.

(** The empty language is the class that excludes nothing and contains
    nothing. *)
Definition Void : regex := Class false [].

Fixpoint deriv (c : ascii) (r : regex) : regex :=
  match r with
  | Eps => Void
  | Class n rs => if inClass n rs c then Eps else Void
  | Cat r1 r2 =>
      if nullable r1 then Alt (Cat (deriv c r1) r2) (deriv c r2)
      else Cat (deriv c r1) r2
  | Alt r1 r2 => Alt (deriv c r1) (deriv c r2)
  | Star r1 => Cat (deriv c r1) (Star r1)
  end.

(** the whole input is matched *)
Fixpoint matchFull (r : regex) (s : list ascii) : bool :=
  match s with
  | [] => nullable r
  | c :: t => matchFull (deriv c r) t
  end.

(** some prefix of the input is matched *)
Fixpoint matchPrefix (r : regex) (s : list ascii) : bool :=
  nullable r ||
  match s with
  | [] => false
  | c :: t => matchPrefix (deriv c r) t
  end.

(** [m] holds of some suffix of the input *)
Fixpoint anywhere (m : list ascii -> bool) (s : list ascii) : bool :=
  m s ||
  match s with
  | [] => false
  | _ :: t => anywhere m t
  end.

Definition test (p : pattern) (s : string) : bool :=
  let l := list_ascii_of_string s in
  let m := if toEnd p then matchFull (body p) else matchPrefix (body p) in
  if fromStart p then m l else anywhere m l.

(** What it means for a word to belong to the language of an expression. *)
Inductive Lang : regex -> list ascii -> Prop :=
| LEps : Lang Eps []
| LClass n rs c : inClass n rs c = true -> Lang (Class n rs) [c]
| LCat r1 r2 u v : Lang r1 u -> Lang r2 v -> Lang (Cat r1 r2) (u ++ v)
| LAltL r1 r2 u : Lang r1 u -> Lang (Alt r1 r2) u
| LAltR r1 r2 u : Lang r2 u -> Lang (Alt r1 r2) u
| LStar0 r : Lang (Star r) []
| LStarS r u v : Lang r u -> Lang (Star r) v -> Lang (Star r) (u ++ v).

End Regex.

(** ** [src/utils.js] *)

(** The result of a call that may end the process. *)
Inductive Res (A : Type) : Type :=
| Ok (value : A)
| Exit (text : string).
Arguments Ok {A} value.
Arguments Exit {A} text.

(** the decoration [exitWithError] puts before its message: a line feed,
    U+1F915 in UTF-8 and a space *)
Definition errorMark : string :=
  String "010"%char (String "240"%char (String "159"%char
    (String "164"%char (String "149"%char (String " "%char EmptyString))))).

Definition exitWithMessage {A} (message : string) : Res A := Exit message.
Definition exitWithError {A} (message : string) : Res A :=
  exitWithMessage (errorMark ++ message).

Definition digit : Regex.regex := Regex.Class false [("0"%char, "9"%char)].
Definition lit (c : ascii) : Regex.regex := Regex.Class false [(c, c)].

(** one numeric component: a lone zero, or a digit from 1 to 9 followed by
    any number of digits *)
Definition numberPart : Regex.regex :=
  Regex.Alt (lit "0")
            (Regex.Cat (Regex.Class false [("1"%char, "9"%char)]) (Regex.Star digit)).

(** [versionRegex] of [validateVersion]: three numeric components separated
    by dots, anchored at both ends *)
Definition versionRegex : Regex.pattern :=
  Regex.Pattern true true
    (Regex.Cat numberPart
       (Regex.Cat (lit ".") (Regex.Cat numberPart (Regex.Cat (lit ".") numberPart)))).

Definition validateVersion (version : option string) : bool :=
  Regex.test versionRegex (Js.showOpt version).

(** ** [src/GitFlow.js]: configuration and validation *)

Record Prefixes : Type := {
  feature : string;
  release : string;
  bugfix : string;
  hotfix : string
}.

(** [stagingBranch] is [None] when the key is absent from the
    configuration. *)
Record Config : Type := {
  mainBranch : string;
  developBranch : string;
  useStaging : bool;
  stagingBranch : option string;
  pushBranches : bool;
  createBranches : bool;
  debug : bool;
  prefixes : Prefixes
}.

(** The argument of the name validation: the CLI passes the array of the
    words typed by the user, the configuration check passes a string. *)
Inductive NameArg : Type :=
| Tokens (words : list string)
| Plain (name : string).

(** [/[^a-zA-Z0-9-_./]/] *)
Definition invalidChars : Regex.pattern :=
  Regex.Pattern false false
    (Regex.Class true
       [("a"%char, "z"%char); ("A"%char, "Z"%char); ("0"%char, "9"%char);
        ("-"%char, "-"%char); ("_"%char, "_"%char); ("."%char, "."%char);
        ("/"%char, "/"%char)]).

(** [Array.isArray(v)] *)
Definition isArray (v : NameArg) : bool :=
  match v with Tokens _ => true | Plain _ => false end.

(** the elements of [v] when it is an array *)
Definition elements (v : NameArg) : list string :=
  match v with Tokens words => words | Plain _ => [] end.

(** [isArray ? v[0] : v]; the first element of an empty array is
    [undefined] *)
Definition firstOrSelf (v : NameArg) : option string :=
  match v with Tokens words => nth_error words 0 | Plain name => Some name end.

Definition isValidBranchName (branchName : NameArg) : Res bool :=
  if isArray branchName && (1 <? List.length (elements branchName))%nat then
    exitWithError ("Branch name '" ++ Js.join " " (elements branchName) ++
                   "' cannot contain spaces.")
  else
    let branchName' := firstOrSelf branchName in
    let isValid := negb (Regex.test invalidChars (Js.showOpt branchName')) in
    if negb isValid then
      exitWithError ("Invalid branch name '" ++ Js.showOpt branchName' ++
                     "'. Use only letters, numbers, hyphens and underscores.")
    else Ok isValid.

Definition isValidVersion (version : list string) : Res (option string) :=
  if (1 <? List.length version)%nat then
    exitWithError ("Branch name '" ++ Js.join " " version ++ "' cannot contain spaces.")
  else if negb (validateVersion (nth_error version 0)) then
    exitWithError ("'" ++ Js.join "," version ++ "' is not a valid version number")
  else Ok (nth_error version 0).

(** ** [src/GitFlow.js]: the instance, its queue and the shell *)

Record ShellResult : Type := {
  code : Z;
  stdout : string;
  stderr : string
}.

Inductive Event : Type :=
| Enqueued (command : string)
| Executed (command : string) (result : ShellResult).

Section Engine.

(** the state of everything outside the process: the repository, the
    working tree, the remote *)
Variable World : Type.

(** [shell.exec(command, { silent: true })] *)
Variable exec : string -> World -> ShellResult * World.

Variable config : Config.

Record State : Type := {
  commands : list string;
  world : World;
  history : list Event
}.

Definition M (A : Type) : Type := State -> Res A * State.

Definition ret {A} (a : A) : M A := fun s => (Ok a, s).

Definition bind {A B} (m : M A) (k : A -> M B) : M B :=
  fun s =>
    match m s with
    | (Ok a, s') => k a s'
    | (Exit text, s') => (Exit text, s')
    end.

Definition lift {A} (r : Res A) : M A := fun s => (r, s).

Notation "x <- m ;; k" := (bind m (fun x => k))
  (at level 61, m at next level, right associativity).
Notation "m ;; k" := (bind m (fun _ => k))
  (at level 61, right associativity).

(** [if (cond) exitWithError(message);] as a statement *)
Definition exitIf (cond : bool) (message : string) : M unit :=
  if cond then lift (exitWithError message) else ret tt.

Definition addCommand (command : string) : M unit :=
  fun s =>
    (Ok tt, {| commands := (commands s ++ [command])%list;
               world := world s;
               history := (history s ++ [Enqueued command])%list |}).

Definition shellExec (command : string) : M ShellResult :=
  fun s =>
    let (r, w) := exec command (world s) in
    (Ok r, {| commands := commands s;
              world := w;
              history := (history s ++ [Executed command r])%list |}).

Definition nonZero (r : ShellResult) : bool := negb (code r =? 0)%Z.

Fixpoint execAll (queue : list string) : M unit :=
  match queue with
  | [] => ret tt
  | command :: rest =>
      result <- shellExec command ;;
      exitIf (nonZero result)
             (if Js.isEmpty (stderr result) then stdout result else stderr result) ;;
      execAll rest
  end.

Definition runCommands : M unit :=
  if debug config then lift (Exit "Debug mode enabled, do not run commands")
  else fun s => execAll (commands s) s.

Definition getCurrentBranchName : M string :=
  r <- shellExec "git branch --show-current" ;;
  ret (Js.trim (stdout r)).

Definition branchExistsLocal (branch : string) : M bool :=
  r <- shellExec ("git rev-parse --verify " ++ branch) ;;
  ret (code r =? 0)%Z.

Definition branchesMatch (branch1 branch2 : string) : M bool :=
  r1 <- shellExec ("git rev-parse " ++ branch1) ;;
  r2 <- shellExec ("git rev-parse " ++ branch2) ;;
  ret (String.eqb (Js.trim (stdout r1)) (Js.trim (stdout r2))).

Definition conflictQuery : string := "git diff --name-only --diff-filter=U".

(** the paths listed by the conflict query *)
Definition conflictsOf (r : ShellResult) : list string :=
  filter Js.truthy (Js.split Js.newline (Js.trim (stdout r))).

Definition checkMergeConflicts : M bool :=
  r <- shellExec conflictQuery ;;
  exitIf (Js.truthy (stderr r)) (stderr r) ;;
  if (0 <? List.length (conflictsOf r))%nat then ret true else ret false.

Definition addTag (version : string) : M unit :=
  addCommand ("git tag -a v" ++ version ++ " -m " ++ Js.dquote ++ "v" ++ version ++ Js.dquote).

Definition checkWorkingTreeClean : M bool :=
  result <- shellExec "git status --porcelain" ;;
  exitIf (negb (String.eqb (Js.trim (stdout result)) EmptyString))
         "Uncommitted changes exist. Please commit or stash your changes before switching branches." ;;
  ret true.

Definition checkoutBranch (branch : string) : M unit :=
  currentBranch <- getCurrentBranchName ;;
  if String.eqb currentBranch branch then ret tt
  else
    found <- branchExistsLocal branch ;;
    exitIf (negb found) (branch ++ " does not exist") ;;
    checkWorkingTreeClean ;;
    addCommand ("git checkout " ++ branch) ;;
    addCommand "git pull".

Definition checkoutToMain : M unit :=
  exitIf (negb (Js.truthy (mainBranch config)))
         "Main branch is not found in the configuration" ;;
  currentBranch <- getCurrentBranchName ;;
  if String.eqb (mainBranch config) currentBranch then ret tt
  else checkoutBranch (mainBranch config).

Definition checkoutToDevelop : M unit :=
  exitIf (negb (Js.truthy (developBranch config)))
         "Develop branch is not found in the configuration" ;;
  currentBranch <- getCurrentBranchName ;;
  if String.eqb (developBranch config) currentBranch then ret tt
  else checkoutBranch (developBranch config).

Definition checkoutToStaging : M unit :=
  exitIf (negb (useStaging config))
         "Staging branch is not enabled in the configuration" ;;
  match stagingBranch config with
  | None => lift (exitWithError "Staging branch is not found in the configuration")
  | Some staging =>
      exitIf (negb (Js.truthy staging))
             "Staging branch is not found in the configuration" ;;
      currentBranch <- getCurrentBranchName ;;
      if String.eqb staging currentBranch then ret tt
      else checkoutBranch staging
  end.

Definition createBranch (branchName fromBranch : string) : M unit :=
  found <- branchExistsLocal branchName ;;
  exitIf found (branchName ++ " already exists") ;;
  addCommand ("git checkout -b " ++ branchName ++ " " ++ fromBranch).

Definition pushBranch : M unit :=
  currentBranch <- getCurrentBranchName ;;
  addCommand ("git push origin " ++ currentBranch).

Definition mergeBranch (sourceBranch targetBranch : string) : M unit :=
  addCommand ("git checkout " ++ targetBranch) ;;
  addCommand ("git merge --no-ff " ++ sourceBranch) ;;
  conflicts <- checkMergeConflicts ;;
  exitIf conflicts "Please resolve merge conflicts and try again" ;;
  if pushBranches config then pushBranch else ret tt.

Definition deleteBranch (branchName : string) : M unit :=
  found <- branchExistsLocal branchName ;;
  exitIf (negb found) (branchName ++ " does not exist") ;;
  addCommand ("git branch -d " ++ branchName) ;;
  if pushBranches config then addCommand ("git push origin --delete " ++ branchName)
  else ret tt.

(** the names [deleteAllLocalBranches] reads from the listing of the local
    branches, after its filter *)
Definition branchesOf (r : ShellResult) : list string :=
  filter (fun branch => negb (String.eqb branch "main") &&
                        negb (String.eqb branch "develop"))
    (map (fun branch => Js.removeFirst "*" (Js.trim branch))
       (Js.split Js.newline (Js.trim (stdout r)))).

Definition deleteAllLocalBranches : M unit :=
  r <- shellExec "git branch --list" ;;
  exitIf (Js.truthy (stderr r)) (stderr r) ;;
  if (List.length (branchesOf r) =? 0)%nat then ret tt
  else
    addCommand ("git branch | grep -v " ++ Js.dquote ++ "main" ++ Js.dquote ++
                " | xargs git branch -D") ;;
    runCommands.

(** *** The eight lifecycle operations *)

Definition startFeature (name : NameArg) : M unit :=
  name' <- lift (isValidBranchName name) ;;
  let featureBranchName := feature (prefixes config) ++ Js.showBool name' in
  found <- branchExistsLocal featureBranchName ;;
  exitIf found (featureBranchName ++ " already exists") ;;
  checkoutToDevelop ;;
  createBranch featureBranchName (developBranch config) ;;
  runCommands.

Definition finishFeature (name : NameArg) : M unit :=
  name' <- lift (isValidBranchName name) ;;
  let featureBranchName := feature (prefixes config) ++ Js.showBool name' in
  found <- branchExistsLocal featureBranchName ;;
  exitIf (negb found) (featureBranchName ++ " does not exist") ;;
  same <- branchesMatch featureBranchName (developBranch config) ;;
  exitIf same ("No commits yet on " ++ featureBranchName) ;;
  checkoutToDevelop ;;
  mergeBranch featureBranchName (developBranch config) ;;
  (if useStaging config then
     checkoutToStaging ;;
     mergeBranch featureBranchName (Js.showOpt (stagingBranch config))
   else ret tt) ;;
  deleteBranch featureBranchName ;;
  runCommands.

Definition startRelease (version : list string) : M unit :=
  version' <- lift (isValidVersion version) ;;
  let releaseBranchName := release (prefixes config) ++ Js.showOpt version' in
  found <- branchExistsLocal releaseBranchName ;;
  exitIf found (releaseBranchName ++ " already exists") ;;
  checkoutToDevelop ;;
  createBranch releaseBranchName (developBranch config) ;;
  runCommands.

Definition finishRelease (version : list string) : M unit :=
  version' <- lift (isValidVersion version) ;;
  let releaseBranchName := release (prefixes config) ++ Js.showOpt version' in
  found <- branchExistsLocal releaseBranchName ;;
  exitIf (negb found) (releaseBranchName ++ " does not exist") ;;
  checkoutToMain ;;
  mergeBranch releaseBranchName (mainBranch config) ;;
  addTag (Js.showOpt version') ;;
  checkoutToDevelop ;;
  mergeBranch releaseBranchName (developBranch config) ;;
  (if useStaging config then
     checkoutToStaging ;;
     mergeBranch releaseBranchName (Js.showOpt (stagingBranch config))
   else ret tt) ;;
  deleteBranch releaseBranchName ;;
  runCommands.

Definition startBugfix (name : NameArg) : M unit :=
  name' <- lift (isValidBranchName name) ;;
  let bugfixBranchName := bugfix (prefixes config) ++ Js.showBool name' in
  found <- branchExistsLocal bugfixBranchName ;;
  exitIf found (bugfixBranchName ++ " already exists") ;;
  checkoutToDevelop ;;
  createBranch bugfixBranchName (developBranch config) ;;
  runCommands.

Definition finishBugfix (name : NameArg) : M unit :=
  name' <- lift (isValidBranchName name) ;;
  let bugfixBranchName := bugfix (prefixes config) ++ Js.showBool name' in
  found <- branchExistsLocal bugfixBranchName ;;
  exitIf (negb found) (bugfixBranchName ++ " does not exist") ;;
  same <- branchesMatch bugfixBranchName (developBranch config) ;;
  exitIf same ("No commits yet on " ++ bugfixBranchName) ;;
  checkoutToDevelop ;;
  mergeBranch bugfixBranchName (developBranch config) ;;
  (if useStaging config then
     checkoutToStaging ;;
     mergeBranch bugfixBranchName (Js.showOpt (stagingBranch config))
   else ret tt) ;;
  deleteBranch bugfixBranchName ;;
  runCommands.

Definition startHotfix (name : NameArg) : M unit :=
  name' <- lift (isValidBranchName name) ;;
  let hotfixBranchName := hotfix (prefixes config) ++ Js.showBool name' in
  found <- branchExistsLocal hotfixBranchName ;;
  exitIf found (hotfixBranchName ++ " already exists") ;;
  checkoutToMain ;;
  createBranch hotfixBranchName (mainBranch config) ;;
  runCommands.

Definition finishHotfix (name : NameArg) : M unit :=
  name' <- lift (isValidBranchName name) ;;
  let hotfixBranchName := hotfix (prefixes config) ++ Js.showBool name' in
  found <- branchExistsLocal hotfixBranchName ;;
  exitIf (negb found) (hotfixBranchName ++ " does not exist") ;;
  same <- branchesMatch hotfixBranchName (mainBranch config) ;;
  exitIf same ("No commits yet on " ++ hotfixBranchName) ;;
  checkoutToMain ;;
  mergeBranch hotfixBranchName (mainBranch config) ;;
  checkoutToDevelop ;;
  mergeBranch hotfixBranchName (developBranch config) ;;
  (if useStaging config then
     checkoutToStaging ;;
     mergeBranch hotfixBranchName (Js.showOpt (stagingBranch config))
   else ret tt) ;;
  deleteBranch hotfixBranchName ;;
  runCommands.

(** *** The command table of the CLI entry point *)

Inductive Kind : Type := Feature | Release | Bugfix | Hotfix.

(** [<kind>:start <name...>] *)
Definition start (kind : Kind) (words : list string) : M unit :=
  match kind with
  | Feature => startFeature (Tokens words)
  | Release => startRelease words
  | Bugfix => startBugfix (Tokens words)
  | Hotfix => startHotfix (Tokens words)
  end.

(** [<kind>:finish <name...>] *)
Definition finish (kind : Kind) (words : list string) : M unit :=
  match kind with
  | Feature => finishFeature (Tokens words)
  | Release => finishRelease words
  | Bugfix => finishBugfix (Tokens words)
  | Hotfix => finishHotfix (Tokens words)
  end.

(** [switch <branch>] *)
Definition switch (branch : string) : M unit := checkoutBranch branch.

(** a new instance: nothing queued, nothing done yet *)
Definition fresh (w : World) : State :=
  {| commands := []; world := w; history := [] |}.

End Engine.

Arguments State World : clear implicits.
Arguments commands {World} s.
Arguments world {World} s.
Arguments history {World} s.
Arguments M World A : clear implicits.
Arguments ret {World A} a s.
Arguments bind {World A B} m k s.
Arguments lift {World A} r s.
Arguments exitIf {World} cond message s.
Arguments addCommand {World} command s.
Arguments shellExec {World} exec command s.
Arguments execAll {World} exec queue s.
Arguments runCommands {World} exec config s.
Arguments getCurrentBranchName {World} exec s.
Arguments branchExistsLocal {World} exec branch s.
Arguments branchesMatch {World} exec branch1 branch2 s.
Arguments checkMergeConflicts {World} exec s.
Arguments addTag {World} version s.
Arguments checkWorkingTreeClean {World} exec s.
Arguments checkoutBranch {World} exec branch s.
Arguments checkoutToMain {World} exec config s.
Arguments checkoutToDevelop {World} exec config s.
Arguments checkoutToStaging {World} exec config s.
Arguments createBranch {World} exec branchName fromBranch s.
Arguments pushBranch {World} exec s.
Arguments mergeBranch {World} exec config sourceBranch targetBranch s.
Arguments deleteBranch {World} exec config branchName s.
Arguments deleteAllLocalBranches {World} exec config s.
Arguments startFeature {World} exec config name s.
Arguments finishFeature {World} exec config name s.
Arguments startRelease {World} exec config version s.
Arguments finishRelease {World} exec config version s.
Arguments startBugfix {World} exec config name s.
Arguments finishBugfix {World} exec config name s.
Arguments startHotfix {World} exec config name s.
Arguments finishHotfix {World} exec config name s.
Arguments start {World} exec config kind words s.
Arguments finish {World} exec config kind words s.
Arguments switch {World} exec branch s.
Arguments fresh {World} w.

(** [GitFlow.#defaultConfig] *)
Definition defaultConfig : Config := {|
  mainBranch := "main";
  developBranch := "develop";
  useStaging := false;
  stagingBranch := None;
  pushBranches := true;
  createBranches := false;
  debug := false;
  prefixes := {| feature := "feature/"; release := "release/";
                 bugfix := "bugfix/"; hotfix := "hotfix/" |}
|}.

(** ** Vocabulary of the specification *)

(** [s] without its prefix [p], when it has that prefix *)
Fixpoint stripPrefix (p s : string) : option string :=
  match p, s with
  | EmptyString, _ => Some s
  | String a p', String b s' => if Ascii.eqb a b then stripPrefix p' s' else None
  | String _ _, EmptyString => None
  end.

Definition startsWith (p s : string) : bool :=
  match stripPrefix p s with Some _ => true | None => false end.

(** The character class of branch names, [A-Za-z0-9-_./], by character
    codes. *)
Definition nameChar (c : ascii) : bool :=
  let n := nat_of_ascii c in
  ((97 <=? n)%nat && (n <=? 122)%nat) || ((65 <=? n)%nat && (n <=? 90)%nat) ||
  ((48 <=? n)%nat && (n <=? 57)%nat) ||
  (n =? 45)%nat || (n =? 95)%nat || (n =? 46)%nat || (n =? 47)%nat.

Definition nameChars (s : string) : bool :=
  forallb nameChar (list_ascii_of_string s).

Definition isDigit (c : ascii) : bool :=
  let n := nat_of_ascii c in (48 <=? n)%nat && (n <=? 57)%nat.

(** a decimal numeral without a leading zero *)
Definition isNumeral (l : list ascii) : bool :=
  match l with
  | [] => false
  | c :: t =>
      if (nat_of_ascii c =? 48)%nat then
        match t with [] => true | _ :: _ => false end
      else isDigit c && forallb isDigit t
  end.

(** [major.minor.patch], each a numeral without a leading zero *)
Definition SemVer (s : string) : Prop :=
  exists major minor patch,
    list_ascii_of_string s = (major ++ "."%char :: minor ++ "."%char :: patch)%list /\
    isNumeral major = true /\ isNumeral minor = true /\ isNumeral patch = true.

(** the word is in the language of the pattern, anchored at both ends *)
Definition Matches (p : Regex.pattern) (s : string) : Prop :=
  Regex.Lang (Regex.body p) (list_ascii_of_string s).

(** The base branch of a kind: the branch the four [start] methods check
    out and create the new branch from. *)
Definition baseBranch (config : Config) (kind : Kind) : string :=
  match kind with
  | Hotfix => mainBranch config
  | Feature | Release | Bugfix => developBranch config
  end.

Definition prefixOf (config : Config) (kind : Kind) : string :=
  match kind with
  | Feature => feature (prefixes config)
  | Release => release (prefixes config)
  | Bugfix => bugfix (prefixes config)
  | Hotfix => hotfix (prefixes config)
  end.

(** The command lines the engine builds. *)
Definition checkoutCmd (branch : string) : string := "git checkout " ++ branch.
Definition pullCmd : string := "git pull".
Definition mergeCmd (source : string) : string := "git merge --no-ff " ++ source.
Definition pushCmd (branch : string) : string := "git push origin " ++ branch.
Definition tagCmd (version : string) : string :=
  "git tag -a v" ++ version ++ " -m " ++ Js.dquote ++ "v" ++ version ++ Js.dquote.
Definition deleteCmd (branch : string) : string := "git branch -d " ++ branch.
Definition deleteRemoteCmd (branch : string) : string := "git push origin --delete " ++ branch.
Definition createCmd (branch from : string) : string :=
  "git checkout -b " ++ branch ++ " " ++ from.
Definition currentQuery : string := "git branch --show-current".
Definition statusQuery : string := "git status --porcelain".
Definition verifyQuery (branch : string) : string := "git rev-parse --verify " ++ branch.
Definition hashQuery (branch : string) : string := "git rev-parse " ++ branch.

(** The command lines the engine runs to read the repository, as opposed to
    those it queues. *)
Definition isQuery (command : string) : bool :=
  String.eqb command currentQuery || String.eqb command statusQuery ||
  String.eqb command conflictQuery || startsWith "git rev-parse " command.

(** What the engine reads from a world. *)
Section Observations.
Variable World : Type.
Variable exec : string -> World -> ShellResult * World.

Definition currentBranch (w : World) : string :=
  Js.trim (stdout (fst (exec currentQuery w))).
Definition existsLocal (w : World) (branch : string) : bool :=
  (code (fst (exec (verifyQuery branch) w)) =? 0)%Z.
Definition hashOf (w : World) (branch : string) : string :=
  Js.trim (stdout (fst (exec (hashQuery branch) w))).
Definition treeDirty (w : World) : bool :=
  negb (String.eqb (Js.trim (stdout (fst (exec statusQuery w)))) EmptyString).

(** the instance after a query on an unchanged world *)
Definition asked (s : State World) (command : string) : State World :=
  {| commands := commands s;
     world := world s;
     history := (history s ++ [Executed command (fst (exec command (world s)))])%list |}.

(** Reading the repository leaves the world as it is. *)
Definition ReadOnly (w : World) : Prop :=
  forall command, isQuery command = true -> snd (exec command w) = w.
End Observations.
Arguments currentBranch {World} exec w.
Arguments existsLocal {World} exec w branch.
Arguments hashOf {World} exec w branch.
Arguments treeDirty {World} exec w.
Arguments ReadOnly {World} exec w.
Arguments asked {World} exec s command.

(** the conflict query answered with at least one path, and no error *)
Definition reportsConflicts (r : ShellResult) : bool :=
  negb (Js.truthy (stderr r)) && (0 <? List.length (conflictsOf r))%nat.

Definition conflictMessage : string :=
  errorMark ++ "Please resolve merge conflicts and try again".

(** The name of the branch a lifecycle operation works on, as the operation
    builds it from the result of its validation. *)
Definition branchNameOf (config : Config) (kind : Kind) (words : list string) : string :=
  prefixOf config kind ++
  match kind with
  | Release =>
      Js.showOpt (match isValidVersion words with Ok v => v | Exit _ => None end)
  | Feature | Bugfix | Hotfix =>
      Js.showBool (match isValidBranchName (Tokens words) with
                   | Ok v => v
                   | Exit _ => false
                   end)
  end.

(** the words pass the validation of the kind *)
Definition accepted (kind : Kind) (words : list string) : Prop :=
  match kind with
  | Release => exists v, isValidVersion words = Ok v
  | Feature | Bugfix | Hotfix => exists v, isValidBranchName (Tokens words) = Ok v
  end.

Definition dirtyMessage : string :=
  errorMark ++
  "Uncommitted changes exist. Please commit or stash your changes before switching branches.".

(** *** Histories *)

(** the commands a history enqueued, in order *)
Definition enqueued (h : list Event) : list string :=
  flat_map (fun e => match e with Enqueued c => [c] | Executed _ _ => [] end) h.

(** While an operation plans its work it enqueues commands and executes
    only queries. *)
Definition planningEvent (e : Event) : bool :=
  match e with
  | Enqueued c => negb (isQuery c)
  | Executed c _ => isQuery c
  end.

(** When the queue is flushed, the queued commands are executed. *)
Definition flushEvent (e : Event) : bool :=
  match e with
  | Enqueued _ => false
  | Executed c _ => negb (isQuery c)
  end.

Definition isDeletion (command : string) : bool :=
  startsWith "git branch -d " command || startsWith "git push origin --delete " command.

(** Every run of the conflict query comes right after a checkout and a
    merge were put in the queue. *)
Definition CheckedAfterQueued (h : list Event) : Prop :=
  forall pre res post,
    h = (pre ++ Executed conflictQuery res :: post)%list ->
    exists pre' target source,
      pre = (pre' ++ [Enqueued (checkoutCmd target); Enqueued (mergeCmd source)])%list.

(** Every merge put in the queue is followed at once by a run of the
    conflict query. *)
Definition MergesChecked (h : list Event) : Prop :=
  forall pre source post,
    h = (pre ++ Enqueued (mergeCmd source) :: post)%list ->
    exists res post', post = Executed conflictQuery res :: post'.

Definition isMerge (command : string) : bool := startsWith "git merge " command.

Definition NoReport (h : list Event) : Prop :=
  forall res, In (Executed conflictQuery res) h -> reportsConflicts res = false.

(** A queued command is no deletion, unless it is the push of a name that
    the repository gave as the current branch. *)
Definition PushesOnly (h : list Event) : Prop :=
  forall c, In (Enqueued c) h ->
    isDeletion c = false \/
    exists res, In (Executed currentQuery res) h /\ c = pushCmd (Js.trim (stdout res)).

(** *** Specifications of runs *)

Definition triple {World A} (P : State World -> Prop) (m : M World A)
    (Q : A -> State World -> Prop) (E : string -> State World -> Prop) : Prop :=
  forall s, P s ->
    match m s with
    | (Ok a, s') => Q a s'
    | (Exit text, s') => E text s'
    end.

(** the queue holds what the history enqueued *)
Definition Sync {World} (s : State World) : Prop :=
  commands s = enqueued (history s).

Definition Planned (h : list Event) : Prop :=
  Forall (fun e => planningEvent e = true) h /\ CheckedAfterQueued h /\
  MergesChecked h.

(** the state of an operation that is still planning and has seen no
    conflict *)
Definition Planning {World} (s : State World) : Prop :=
  Sync s /\ Planned (history s) /\ NoReport (history s) /\ PushesOnly (history s).

(** the state of an operation that ended while planning: if a conflict was
    reported, the report is the last thing that happened and the text says
    so *)
Definition Stopped {World} (text : string) (s : State World) : Prop :=
  Sync s /\ Planned (history s) /\ PushesOnly (history s) /\
  forall res,
    In (Executed conflictQuery res) (history s) -> reportsConflicts res = true ->
    text = conflictMessage /\
    exists pre, history s = (pre ++ [Executed conflictQuery res])%list.

(** the state of an operation that has planned everything, deletion
    included *)
Definition Ready {World} (s : State World) : Prop :=
  Sync s /\ Planned (history s) /\ NoReport (history s).

(** the state an operation ends in after trying to flush its queue *)
Definition Flushed {World} (s : State World) : Prop :=
  exists plan flush,
    history s = (plan ++ flush)%list /\ commands s = enqueued plan /\
    Planned plan /\ NoReport plan /\
    Forall (fun e => flushEvent e = true) flush.

(** how an operation that exits can leave its instance *)
Definition Ended {World} (text : string) (s : State World) : Prop :=
  Stopped text s \/ Flushed s.

(** the instance of [mergeBranch] right after its conflict check *)
Definition checked {World} (s : State World) (source target : string)
    (r : ShellResult) (w : World) : State World :=
  {| commands := ((commands s ++ [checkoutCmd target]) ++ [mergeCmd source])%list;
     world := w;
     history := (((history s ++ [Enqueued (checkoutCmd target)]) ++
                  [Enqueued (mergeCmd source)]) ++ [Executed conflictQuery r])%list |}.

(** an event that is the execution of a query *)
Definition isAsk (e : Event) : bool :=
  match e with
  | Enqueued _ => false
  | Executed c _ => isQuery c
  end.

(** the instance has queued nothing and has only asked questions, which
    left the world as it was *)
Definition Untouched {World} (w : World) (s : State World) : Prop :=
  world s = w /\ commands s = [] /\ Forall (fun e => isAsk e = true) (history s).

(** *** Queues *)

(** what a run adds to the queue, when it returns and when it exits *)
Definition delta {World A} (m : M World A) (onOk onExit : list string -> Prop) : Prop :=
  forall s,
    match m s with
    | (Ok _, s') => exists cs, commands s' = (commands s ++ cs)%list /\ onOk cs
    | (Exit _, s') => exists cs, commands s' = (commands s ++ cs)%list /\ onExit cs
    end.

(** the checkout of a branch one is not on: a checkout and a pull, or
    nothing when one is on it *)
Definition optCheckout (branch : string) (cs : list string) : Prop :=
  cs = [] \/ cs = [checkoutCmd branch; pullCmd].

(** one push when pushing is on, nothing otherwise *)
Definition optPush (push : bool) (cs : list string) : Prop :=
  if push then exists branch, cs = [pushCmd branch] else cs = [].

(** what [mergeBranch] adds: a checkout, a merge and the push *)
Definition mergeAdds (push : bool) (source target : string) (cs : list string) : Prop :=
  exists p, cs = ([checkoutCmd target; mergeCmd source] ++ p)%list /\ optPush push p.

(** one merge step: get to the target, check it out and merge, push *)
Definition MergeStep (push : bool) (source target : string) (cs : list string) : Prop :=
  exists c p,
    cs = (c ++ [checkoutCmd target; mergeCmd source] ++ p)%list /\
    optCheckout target c /\ optPush push p.

(** the queue of a release finished with a staging branch *)
Definition ReleaseQueue (config : Config) (version staging : string)
    (q : list string) : Prop :=
  let branch := release (prefixes config) ++ version in
  let push := pushBranches config in
  exists toMain toDevelop toStaging,
    q = (toMain ++ [tagCmd version] ++ toDevelop ++ toStaging ++
         deleteCmd branch :: (if push then [deleteRemoteCmd branch] else []))%list /\
    MergeStep push branch (mainBranch config) toMain /\
    MergeStep push branch (developBranch config) toDevelop /\
    MergeStep push branch staging toStaging.

Definition nothing (cs : list string) : Prop := cs = [].

(** no local deletion among the commands *)
Definition NoDelete (cs : list string) : Prop :=
  forall branch, ~ In (deleteCmd branch) cs.

(** ** A small repository to run the engine on *)

Module Repo.

Record t : Type := {
  head : string;                       (* the branch checked out *)
  branches : list (string * string);   (* local branches and their commits *)
  porcelain : string;                  (* output of the status query *)
  unmerged : string                    (* output of the conflict query *)
}.

Fixpoint lookup (branch : string) (l : list (string * string)) : option string :=
  match l with
  | [] => None
  | (b, h) :: r => if String.eqb b branch then Some h else lookup branch r
  end.

Definition line (s : string) : string := s ++ String Js.newline EmptyString.

Definition done (out : string) : ShellResult :=
  {| code := 0; stdout := out; stderr := EmptyString |}.

Definition failed (n : Z) (out err : string) : ShellResult :=
  {| code := n; stdout := out; stderr := err |}.

(** the commands that change the repository *)
Definition change (command : string) (r : t) : ShellResult * t :=
  match stripPrefix "git checkout -b " command with
  | Some rest =>
      match Js.split " "%char rest with
      | [name; from] =>
          match lookup from (branches r) with
          | Some h =>
              (done EmptyString,
               {| head := name; branches := (branches r ++ [(name, h)])%list;
                  porcelain := porcelain r; unmerged := unmerged r |})
          | None => (failed 128 EmptyString "fatal: not a valid object name", r)
          end
      | _ => (failed 129 EmptyString "usage: git checkout", r)
      end
  | None =>
      match stripPrefix "git checkout " command with
      | Some branch =>
          match lookup branch (branches r) with
          | Some _ =>
              (done EmptyString,
               {| head := branch; branches := branches r;
                  porcelain := porcelain r; unmerged := unmerged r |})
          | None => (failed 1 EmptyString "error: pathspec did not match", r)
          end
      | None => (done EmptyString, r)
      end
  end.

(** the commands that read it *)
Definition answer (command : string) (r : t) : ShellResult :=
  if String.eqb command currentQuery then done (line (head r))
  else if String.eqb command statusQuery then done (porcelain r)
  else if String.eqb command conflictQuery then done (unmerged r)
  else
    match stripPrefix "git rev-parse --verify " command with
    | Some branch =>
        match lookup branch (branches r) with
        | Some h => done (line h)
        | None => failed 128 EmptyString "fatal: Needed a single revision"
        end
    | None =>
        match stripPrefix "git rev-parse " command with
        | Some branch =>
            match lookup branch (branches r) with
            | Some h => done (line h)
            | None => failed 128 (line branch) "fatal: ambiguous argument"
            end
        | None => done EmptyString
        end
    end.

Definition git (command : string) (r : t) : ShellResult * t :=
  if isQuery command then (answer command r, r) else change command r.

End Repo.

(** *** Sample repositories and configurations *)

Module Samples.

(** on [develop], nothing to commit *)
Definition onDevelop : Repo.t := {|
  Repo.head := "develop";
  Repo.branches := [("main", "1a2b3c"); ("develop", "4d5e6f")];
  Repo.porcelain := EmptyString;
  Repo.unmerged := EmptyString
|}.

(** on [develop], with a modified file *)
Definition dirtyOnDevelop : Repo.t := {|
  Repo.head := "develop";
  Repo.branches := [("main", "1a2b3c"); ("develop", "4d5e6f")];
  Repo.porcelain := Repo.line " M src/index.js";
  Repo.unmerged := EmptyString
|}.

(** on [main], with a modified file *)
Definition dirtyOnMain : Repo.t := {|
  Repo.head := "main";
  Repo.branches := [("main", "1a2b3c"); ("develop", "4d5e6f")];
  Repo.porcelain := Repo.line " M src/index.js";
  Repo.unmerged := EmptyString
|}.

(** on the branch that [feature:start login] made, with one commit on it *)
Definition featureWithCommit : Repo.t := {|
  Repo.head := "feature/true";
  Repo.branches := [("main", "1a2b3c"); ("develop", "4d5e6f"); ("feature/true", "7a8b9c")];
  Repo.porcelain := EmptyString;
  Repo.unmerged := EmptyString
|}.

(** on the branch that [feature:start login] made, with no commit on it *)
Definition featureWithoutCommit : Repo.t := {|
  Repo.head := "feature/true";
  Repo.branches := [("main", "1a2b3c"); ("develop", "4d5e6f"); ("feature/true", "4d5e6f")];
  Repo.porcelain := EmptyString;
  Repo.unmerged := EmptyString
|}.

(** as [featureWithCommit], with a path left unmerged in the working tree *)
Definition featureInConflict : Repo.t := {|
  Repo.head := "feature/true";
  Repo.branches := [("main", "1a2b3c"); ("develop", "4d5e6f"); ("feature/true", "7a8b9c")];
  Repo.porcelain := EmptyString;
  Repo.unmerged := Repo.line "src/app.js"
|}.

(** on a release branch cut from [develop], with no commit on it *)
Definition releaseWithoutCommit : Repo.t := {|
  Repo.head := "release/1.0.0";
  Repo.branches := [("main", "1a2b3c"); ("develop", "4d5e6f"); ("staging", "4d5e6f");
                    ("release/1.0.0", "4d5e6f")];
  Repo.porcelain := EmptyString;
  Repo.unmerged := EmptyString
|}.

(** the default configuration with a staging branch *)
Definition withStaging : Config := {|
  mainBranch := "main";
  developBranch := "develop";
  useStaging := true;
  stagingBranch := Some "staging";
  pushBranches := true;
  createBranches := false;
  debug := false;
  prefixes := prefixes defaultConfig
|}.

End Samples.

(** ** Vocabulary of the further properties *)

(** the events of executing the first commands of [cs], one per result *)
Definition executions (cs : list string) (rs : list ShellResult) : list Event :=
  map (fun p => Executed (fst p) (snd p)) (combine cs rs).

Definition succeeded (r : ShellResult) : bool := (code r =? 0)%Z.

(** what [runCommands] writes when a command fails *)
Definition failureText (r : ShellResult) : string :=
  errorMark ++ (if Js.isEmpty (stderr r) then stdout r else stderr r).

Definition debugText : string := "Debug mode enabled, do not run commands".

(** the results of a flush that stopped: all succeeded but the last, whose
    output is the text of the exit *)
Definition Aborted (text : string) (rs : list ShellResult) : Prop :=
  exists ok bad,
    rs = (ok ++ [bad])%list /\ Forall (fun r => succeeded r = true) ok /\
    succeeded bad = false /\ text = failureText bad.

(** the instance has only enqueued commands and executed queries, and its
    queue holds what it enqueued *)
Definition Quiet {World} (s : State World) : Prop :=
  Sync s /\ Forall (fun e => planningEvent e = true) (history s).

(** How a lifecycle operation leaves its instance: a planning phase, then
    the execution of the queue from its first command on; all of it
    successfully when the operation returns, none of it or up to the first
    failure when it exits. *)
Definition Ran {World} (result : Res unit) (s : State World) : Prop :=
  exists plan rs,
    history s = (plan ++ executions (commands s) rs)%list /\
    commands s = enqueued plan /\
    Forall (fun e => planningEvent e = true) plan /\
    (List.length rs <= List.length (commands s))%nat /\
    match result with
    | Ok _ => List.length rs = List.length (commands s) /\
              Forall (fun r => succeeded r = true) rs
    | Exit text => rs = [] \/ Aborted text rs
    end.

(** *** The plan of a finish *)

(** what a finish operation does before it deletes the branch: merges into
    target branches and, for a release, a tag *)
Inductive Step : Type :=
| MergeInto (target : string)
| Tag (version : string).

(** the steps of each kind, in the order of the calls of the four finish
    methods *)
Definition finishPlan (config : Config) (kind : Kind) (words : list string) : list Step :=
  (match kind with
   | Feature | Bugfix => [MergeInto (developBranch config)]
   | Release =>
       [MergeInto (mainBranch config);
        Tag (Js.showOpt (match isValidVersion words with Ok v => v | Exit _ => None end));
        MergeInto (developBranch config)]
   | Hotfix => [MergeInto (mainBranch config); MergeInto (developBranch config)]
   end ++
   if useStaging config then [MergeInto (Js.showOpt (stagingBranch config))] else [])%list.

(** a list of commands carries out a plan: one merge step per merge, one tag
    command per tag, in the order of the plan and with nothing else *)
Fixpoint Realises (push : bool) (source : string) (plan : list Step)
    (q : list string) : Prop :=
  match plan with
  | [] => q = []
  | MergeInto target :: rest =>
      exists q1 q2,
        q = (q1 ++ q2)%list /\ MergeStep push source target q1 /\
        Realises push source rest q2
  | Tag version :: rest =>
      exists q2, q = tagCmd version :: q2 /\ Realises push source rest q2
  end.

(** the commands of a plan followed by the deletion of the branch *)
Definition Finishes (push : bool) (branch : string) (plan : list Step)
    (cs : list string) : Prop :=
  exists steps,
    cs = (steps ++ deleteCmd branch ::
          (if push then [deleteRemoteCmd branch] else []))%list /\
    Realises push branch plan steps.

Definition any (cs : list string) : Prop := True.

(** the command lines that write to the remote *)
Definition isPush (command : string) : bool := startsWith "git push" command.

(** no command of the queue writes to the remote *)
Definition Pushless {World} (s : State World) : Prop :=
  Forall (fun c => isPush c = false) (commands s).

(** the instance after the first shell call of an operation *)
Definition afterFirst {World} (exec : string -> World -> ShellResult * World)
    (command : string) (w : World) : State World :=
  {| commands := [];
     world := snd (exec command w);
     history := [Executed command (fst (exec command w))] |}.

(** ** [src/GitFlow.js]: the configuration object and its validation *)

(** The values of JavaScript that a parsed configuration file or the
    argument of the constructor can hold.  A number is kept as its decimal
    rendering together with whether it is falsy (zero or NaN); the code
    looks at nothing else of a number. *)
#[warnings="-register-all"]
Inductive Value : Type :=
| Undefined
| Null
| Boolean (b : bool)
| Number (shown : string) (falsy : bool)
| Text (s : string)
| Array (items : list Value)
| Object (fields : list (string * Value)).

(** an element of an array under [join]: [null] and [undefined] give the
    empty string *)
Definition joinItem (toString : Value -> string) (x : Value) : string :=
  match x with
  | Undefined | Null => EmptyString
  | _ => toString x
  end.

(** the conversion to a string of template literals and of
    [RegExp.prototype.test] *)
Fixpoint toString (v : Value) : string :=
  match v with
  | Undefined => "undefined"
  | Null => "null"
  | Boolean b => Js.showBool b
  | Number shown _ => shown
  | Text s => s
  | Array items => Js.join "," (map (joinItem toString) items)
  | Object _ => "[object Object]"
  end.

(** a value in a boolean position *)
Definition isTruthy (v : Value) : bool :=
  match v with
  | Undefined | Null => false
  | Boolean b => b
  | Number _ falsy => negb falsy
  | Text s => Js.truthy s
  | Array _ | Object _ => true
  end.

(** [typeof v === 'boolean'] *)
Definition isBoolean (v : Value) : bool :=
  match v with Boolean _ => true | _ => false end.

(** [object[key]] for an object given by its properties; a key is read at
    its first binding and a missing key gives [undefined] *)
Fixpoint property (key : string) (fields : list (string * Value)) : Value :=
  match fields with
  | [] => Undefined
  | (k, v) :: rest => if String.eqb k key then v else property key rest
  end.

(** [key in object] *)
Definition has (key : string) (fields : list (string * Value)) : bool :=
  existsb (fun kv => String.eqb (fst kv) key) fields.

(** [v[key]] for a value that is not [null] or [undefined], for the keys the
    code reads: only an object has them *)
Definition get (v : Value) (key : string) : Value :=
  match v with
  | Object fields => property key fields
  | _ => Undefined
  end.

(** [{ ...a, ...b }]: the bindings of [b] shadow those of [a] *)
Definition spread (a b : list (string * Value)) : list (string * Value) :=
  (b ++ a)%list.

(** a value as the argument of [isValidBranchName]: of an array the code
    reads the length, the first element and, when it has several elements,
    their [join]; of any other value its conversion to a string *)
Definition nameArg (v : Value) : NameArg :=
  match v with
  | Array [] => Tokens []
  | Array [x] => Tokens [toString x]
  | Array items => Tokens (map (joinItem toString) items)
  | _ => Plain (toString v)
  end.

Definition andThen {A B} (r : Res A) (k : A -> Res B) : Res B :=
  match r with
  | Ok a => k a
  | Exit text => Exit text
  end.

(** [if (cond) exitWithError(message);] outside of an instance *)
Definition check (cond : bool) (message : string) : Res unit :=
  if cond then exitWithError message else Ok tt.

(** [for (const x of l) body] *)
Fixpoint forEach {A} (l : list A) (body : A -> Res unit) : Res unit :=
  match l with
  | [] => Ok tt
  | x :: rest => andThen (body x) (fun _ => forEach rest body)
  end.

Definition validateConfig (config : list (string * Value)) : Res bool :=
  andThen
    (forEach ["mainBranch"; "developBranch"; "prefixes"] (fun field =>
       check (negb (isTruthy (property field config)))
             ("Missing required configuration field: " ++ field))) (fun _ =>
  andThen (isValidBranchName (nameArg (property "mainBranch" config))) (fun _ =>
  andThen (isValidBranchName (nameArg (property "developBranch" config))) (fun _ =>
  andThen
    (if isTruthy (property "useStaging" config)
     then andThen (isValidBranchName (nameArg (property "stagingBranch" config)))
            (fun _ => Ok tt)
     else Ok tt) (fun _ =>
  andThen
    (forEach ["feature"; "release"; "bugfix"; "hotfix"] (fun prefix =>
       let value := get (property "prefixes" config) prefix in
       andThen (check (negb (isTruthy value)) ("Missing required prefix: " ++ prefix))
         (fun _ =>
       andThen (isValidBranchName (nameArg value)) (fun valid =>
       check (negb valid)
             ("Invalid '" ++ prefix ++ "' prefix: " ++ toString value))))) (fun _ =>
  andThen
    (forEach ["useStaging"; "pushBranches"; "createBranches"; "debug"] (fun field =>
       check (has field config && negb (isBoolean (property field config)))
             ("Invalid value for '" ++ field ++ "'. Must be a boolean."))) (fun _ =>
  Ok true)))))).

(** [GitFlow.#defaultConfig] as an object *)
Definition defaultObject : list (string * Value) :=
  [("mainBranch", Text "main");
   ("developBranch", Text "develop");
   ("useStaging", Boolean false);
   ("pushBranches", Boolean true);
   ("createBranches", Boolean false);
   ("debug", Boolean false);
   ("prefixes",
    Object [("feature", Text "feature/"); ("release", Text "release/");
            ("bugfix", Text "bugfix/"); ("hotfix", Text "hotfix/")])].

(** [new GitFlow(config)] for an object [config]: the configuration of the
    instance *)
Definition construct (config : list (string * Value)) : Res (list (string * Value)) :=
  let mergedConfig := spread defaultObject config in
  andThen (validateConfig mergedConfig) (fun _ => Ok mergedConfig).

(** *** Reading the configuration object as the engine does *)

Definition asText (v : Value) : option string :=
  match v with Text s => Some s | _ => None end.

Definition asFlag (v : Value) : option bool :=
  match v with Boolean b => Some b | _ => None end.

(** the prefixes of a configuration whose four prefixes are strings *)
Definition toPrefixes (v : Value) : option Prefixes :=
  match asText (get v "feature"), asText (get v "release"),
        asText (get v "bugfix"), asText (get v "hotfix") with
  | Some f, Some r, Some b, Some h =>
      Some {| feature := f; release := r; bugfix := b; hotfix := h |}
  | _, _, _, _ => None
  end.

(** the configuration of the engine, for an object whose branch names are
    strings and whose flags are booleans; the staging branch may be absent *)
Definition toConfig (o : list (string * Value)) : option Config :=
  match asText (property "mainBranch" o), asText (property "developBranch" o),
        asFlag (property "useStaging" o), asFlag (property "pushBranches" o),
        asFlag (property "createBranches" o), asFlag (property "debug" o),
        toPrefixes (property "prefixes" o) with
  | Some main, Some develop, Some staging, Some push, Some create, Some dbg, Some pre =>
      match property "stagingBranch" o with
      | Undefined =>
          Some {| mainBranch := main; developBranch := develop; useStaging := staging;
                  stagingBranch := None; pushBranches := push;
                  createBranches := create; debug := dbg; prefixes := pre |}
      | Text name =>
          Some {| mainBranch := main; developBranch := develop; useStaging := staging;
                  stagingBranch := Some name; pushBranches := push;
                  createBranches := create; debug := dbg; prefixes := pre |}
      | _ => None
      end
  | _, _, _, _, _, _, _ => None
  end.

(** a value passes the name validation *)
Definition Named (v : Value) : Prop := isValidBranchName (nameArg v) = Ok true.

(** what [validateConfig] asks of a configuration *)
Definition Valid (config : list (string * Value)) : Prop :=
  (forall field, In field ["mainBranch"; "developBranch"; "prefixes"] ->
     isTruthy (property field config) = true) /\
  Named (property "mainBranch" config) /\
  Named (property "developBranch" config) /\
  (isTruthy (property "useStaging" config) = true ->
   Named (property "stagingBranch" config)) /\
  (forall prefix, In prefix ["feature"; "release"; "bugfix"; "hotfix"] ->
     isTruthy (get (property "prefixes" config) prefix) = true /\
     Named (get (property "prefixes" config) prefix)) /\
  (forall field, In field ["useStaging"; "pushBranches"; "createBranches"; "debug"] ->
     has field config = true -> isBoolean (property field config) = true).

(** the message of the third exit of the loop over the prefixes *)
Definition invalidPrefixText (prefix value : string) : string :=
  errorMark ++ "Invalid '" ++ prefix ++ "' prefix: " ++ value.

(** a non-empty name made of the characters the name validation allows *)
Definition goodName (name : string) : bool := Js.truthy name && nameChars name.

(** a configuration with its [createBranches] flag replaced *)
Definition withCreateBranches (flag : bool) (config : Config) : Config :=
  {| mainBranch := mainBranch config;
     developBranch := developBranch config;
     useStaging := useStaging config;
     stagingBranch := stagingBranch config;
     pushBranches := pushBranches config;
     createBranches := flag;
     debug := debug config;
     prefixes := prefixes config |}.

(** *** The listing of the local branches *)

Definition listQuery : string := "git branch --list".
Definition deleteAllCmd : string :=
  "git branch | grep -v " ++ Js.dquote ++ "main" ++ Js.dquote ++
  " | xargs git branch -D".

(** a backend that answers every command with the same output *)
Definition constantly (out : string) (command : string) (w : unit) : ShellResult * unit :=
  ({| code := 0; stdout := out; stderr := EmptyString |}, w).

(** *** White space *)

(** the string with the given bytes *)
Definition bytes (codes : list nat) : string :=
  string_of_list_ascii (map ascii_of_nat codes).

(** the white space and line terminators of ECMAScript in UTF-8: U+0009 to
    U+000D, U+0020, U+00A0, U+1680, U+2000 to U+200A, U+2028, U+2029,
    U+202F, U+205F, U+3000 and U+FEFF *)
Definition whiteSpaces : list string :=
  map bytes
    [[9]; [10]; [11]; [12]; [13]; [32]; [194; 160]; [225; 154; 128];
     [226; 128; 128]; [226; 128; 129]; [226; 128; 130]; [226; 128; 131];
     [226; 128; 132]; [226; 128; 133]; [226; 128; 134]; [226; 128; 135];
     [226; 128; 136]; [226; 128; 137]; [226; 128; 138]; [226; 128; 168];
     [226; 128; 169]; [226; 128; 175]; [226; 129; 159]; [227; 128; 128];
     [239; 187; 191]].

(** characters close to them that [trim] keeps: U+0085, U+180E, U+200B,
    U+2060 *)
Definition notWhiteSpaces : list string :=
  map bytes [[194; 133]; [225; 160; 142]; [226; 128; 139]; [226; 129; 160]].

(** *** More sample configurations and repositories *)

Module Cases.

(** the default configuration in debug mode *)
Definition debugging : Config := {|
  mainBranch := "main";
  developBranch := "develop";
  useStaging := false;
  stagingBranch := None;
  pushBranches := true;
  createBranches := false;
  debug := true;
  prefixes := prefixes defaultConfig
|}.

(** staging switched on, and no staging branch named *)
Definition stagingUnnamed : Config := {|
  mainBranch := "main";
  developBranch := "develop";
  useStaging := true;
  stagingBranch := None;
  pushBranches := true;
  createBranches := false;
  debug := false;
  prefixes := prefixes defaultConfig
|}.

(** the default configuration without pushes *)
Definition local : Config := {|
  mainBranch := "main";
  developBranch := "develop";
  useStaging := false;
  stagingBranch := None;
  pushBranches := false;
  createBranches := false;
  debug := false;
  prefixes := prefixes defaultConfig
|}.

(** the listing of a repository with the branches [develop] and [main], on
    [main] *)
Definition mainAndDevelop : string := Repo.line "  develop" ++ Repo.line "* main".

(** an object that brings its own prefixes, and only one of them *)
Definition ownPrefixes : list (string * Value) :=
  [("prefixes", Object [("feature", Text "feat/")])].

(** an object that renames the main branch *)
Definition renamedMain : list (string * Value) := [("mainBranch", Text "master")].

(** an object that switches staging on and names the staging branch *)
Definition stagingNamed : list (string * Value) :=
  [("useStaging", Boolean true); ("stagingBranch", Text "staging")].

End Cases.

(** * Properties *)

(** ** The matcher agrees with the language of the expression *)

Module RegexFacts.
Import Regex.

Lemma Void_empty (s : list ascii) : ~ Lang Void s.
Proof.
  intros H. inversion H; subst. discriminate.
Qed.

Lemma nullable_Lang (r : regex) : nullable r = true <-> Lang r [].
Proof.
  induction r as [| n rs | r1 IH1 r2 IH2 | r1 IH1 r2 IH2 | r IH]; simpl.
  - split; [constructor | reflexivity].
  - split; [discriminate | intros H; inversion H].
  - rewrite andb_true_iff, IH1, IH2. split.
    + intros [H1 H2]. change (@nil ascii) with (@nil ascii ++ [])%list.
      now constructor.
    + intros H. inversion H as [| | ? ? u v Hu Hv Heq | | | |]; subst.
      match goal with E : (_ ++ _)%list = [] |- _ =>
        apply app_eq_nil in E; destruct E; subst end.
      now split.
  - rewrite orb_true_iff, IH1, IH2. split.
    + intros [H | H]; [now apply LAltL | now apply LAltR].
    + intros H. inversion H; subst; [now left | now right].
  - split; [constructor | reflexivity].
Qed.

Lemma star_cons (r : regex) (c : ascii) (s : list ascii) :
  Lang (Star r) (c :: s) ->
  exists u v, s = (u ++ v)%list /\ Lang r (c :: u) /\ Lang (Star r) v.
Proof.
  intros H. remember (Star r) as r' eqn:Er. remember (c :: s) as w eqn:Ew.
  revert s Ew.
  induction H as [| | | | | | r0 u v Hu _ Hv IHv]; try discriminate.
  intros s Ew. injection Er as ->.
  destruct u as [| a u'].
  - simpl in Ew. now apply IHv.
  - simpl in Ew. injection Ew as -> <-.
    now exists u', v.
Qed.

Lemma deriv_Lang (r : regex) (c : ascii) (s : list ascii) :
  Lang (deriv c r) s <-> Lang r (c :: s).
Proof.
  revert s.
  induction r as [| n rs | r1 IH1 r2 IH2 | r1 IH1 r2 IH2 | r IH]; intros s; simpl.
  - split; intros H; [now apply Void_empty in H | inversion H].
  - destruct (inClass n rs c) eqn:E; split; intros H.
    + inversion H; subst. now constructor.
    + inversion H; subst. constructor.
    + now apply Void_empty in H.
    + inversion H; subst. congruence.
  - assert (Hcat : Lang (Cat (deriv c r1) r2) s -> Lang (Cat r1 r2) (c :: s)).
    { intros H. inversion H as [| | ? ? u v Hu Hv | | | |]; subst.
      apply IH1 in Hu. change (c :: u ++ v)%list with ((c :: u) ++ v)%list.
      now constructor. }
    assert (Hinv : Lang (Cat r1 r2) (c :: s) ->
                   Lang (Cat (deriv c r1) r2) s \/
                   (Lang r1 [] /\ Lang (deriv c r2) s)).
    { intros H. inversion H as [| | ? ? u v Hu Hv | | | |]; subst.
      match goal with E : (u ++ v)%list = c :: s |- _ => rename E into Heq end.
      destruct u as [| a u'].
      - simpl in Heq. subst v. right. split; [assumption | now apply IH2].
      - simpl in Heq. injection Heq as -> <-. left.
        constructor; [now apply IH1 | assumption]. }
    destruct (nullable r1) eqn:En; split; intros H.
    + inversion H; subst.
      * now apply Hcat.
      * apply nullable_Lang in En.
        match goal with D : Lang (deriv c r2) s |- _ => apply IH2 in D end.
        change (c :: s) with ([] ++ c :: s)%list. now constructor.
    + destruct (Hinv H) as [H1 | [_ H2]]; [now apply LAltL | now apply LAltR].
    + now apply Hcat.
    + destruct (Hinv H) as [H1 | [H1 _]]; [assumption |].
      apply nullable_Lang in H1. congruence.
  - split; intros H; inversion H; subst.
    + apply LAltL. now apply IH1.
    + apply LAltR. now apply IH2.
    + apply LAltL. now apply IH1.
    + apply LAltR. now apply IH2.
  - split; intros H.
    + inversion H as [| | ? ? u v Hu Hv | | | |]; subst.
      apply IH in Hu. change (c :: u ++ v)%list with ((c :: u) ++ v)%list.
      now constructor.
    + apply star_cons in H. destruct H as (u & v & -> & Hu & Hv).
      constructor; [now apply IH | assumption].
Qed.

Lemma matchFull_Lang (r : regex) (s : list ascii) :
  matchFull r s = true <-> Lang r s.
Proof.
  revert r. induction s as [| c t IH]; intros r; simpl.
  - apply nullable_Lang.
  - rewrite IH. apply deriv_Lang.
Qed.

End RegexFacts.

(** ** Branch names and versions *)

Lemma nat_of_ascii_inj (a b : ascii) : nat_of_ascii a = nat_of_ascii b -> a = b.
Proof.
  intros H. rewrite <- (ascii_nat_embedding a), <- (ascii_nat_embedding b).
  now rewrite H.
Qed.

Lemma inClass_range (lo hi c : ascii) :
  Regex.inClass false [(lo, hi)] c =
  (nat_of_ascii lo <=? nat_of_ascii c)%nat && (nat_of_ascii c <=? nat_of_ascii hi)%nat.
Proof.
  unfold Regex.inClass, Regex.inRange. cbn [existsb xorb fst snd].
  apply orb_false_r.
Qed.

Lemma Lang_lit (c0 : ascii) (l : list ascii) :
  Regex.Lang (lit c0) l <-> l = [c0].
Proof.
  unfold lit. split.
  - intros H. inversion H as [| n rs c Hc | | | | |]; subst.
    rewrite inClass_range, andb_true_iff, !Nat.leb_le in Hc.
    f_equal. apply nat_of_ascii_inj. lia.
  - intros ->. constructor.
    now rewrite inClass_range, Nat.leb_refl.
Qed.

Lemma Lang_digit (l : list ascii) :
  Regex.Lang digit l <-> exists c, l = [c] /\ isDigit c = true.
Proof.
  unfold digit. split.
  - intros H. inversion H as [| n rs c Hc | | | | |]; subst.
    exists c. split; [reflexivity |].
    now rewrite inClass_range in Hc.
  - intros (c & -> & Hc). constructor.
    now rewrite inClass_range.
Qed.

Lemma Lang_digits (l : list ascii) :
  Regex.Lang (Regex.Star digit) l <-> forallb isDigit l = true.
Proof.
  split.
  - intros H. remember (Regex.Star digit) as r eqn:Er.
    induction H as [| | | | | | r0 u v Hu _ Hv IHv]; try discriminate.
    + reflexivity.
    + injection Er as ->. apply Lang_digit in Hu. destruct Hu as (c & -> & Hc).
      simpl. rewrite Hc. now apply IHv.
  - induction l as [| c t IH]; simpl; intros H.
    + constructor.
    + apply andb_true_iff in H. destruct H as [Hc Ht].
      change (c :: t) with ([c] ++ t)%list. constructor.
      * apply Lang_digit. now exists c.
      * now apply IH.
Qed.

Lemma Lang_numberPart (l : list ascii) :
  Regex.Lang numberPart l <-> isNumeral l = true.
Proof.
  unfold numberPart. split.
  - intros H. inversion H as [| | | r1 r2 u Hu | r1 r2 u Hu | |]; subst.
    + apply Lang_lit in Hu. now subst.
    + inversion Hu as [| | r1 r2 u v Hc Hv | | | |]; subst.
      inversion Hc as [| n rs c Hin | | | | |]; subst.
      apply Lang_digits in Hv.
      rewrite inClass_range, andb_true_iff, !Nat.leb_le in Hin.
      change (nat_of_ascii "1"%char) with 49 in Hin.
      change (nat_of_ascii "9"%char) with 57 in Hin.
      cbn [app isNumeral]. destruct (Nat.eqb_spec (nat_of_ascii c) 48) as [E | _]; [lia |].
      rewrite Hv, andb_true_r. unfold isDigit.
      rewrite andb_true_iff, !Nat.leb_le. lia.
  - destruct l as [| c t]; cbn [isNumeral]; [discriminate |].
    destruct (Nat.eqb_spec (nat_of_ascii c) 48) as [E | N].
    + destruct t; [| discriminate]. intros _. apply Regex.LAltL.
      apply Lang_lit. f_equal. now apply nat_of_ascii_inj.
    + intros H. apply andb_true_iff in H. destruct H as [Hc Ht].
      apply Regex.LAltR. change (c :: t) with ([c] ++ t)%list.
      constructor; [| now apply Lang_digits].
      constructor. unfold isDigit in Hc.
      rewrite andb_true_iff, !Nat.leb_le in Hc.
      rewrite inClass_range, andb_true_iff, !Nat.leb_le.
      change (nat_of_ascii "1"%char) with 49.
      change (nat_of_ascii "9"%char) with 57. lia.
Qed.

(** The language of [versionRegex] is the set of the words
    [major.minor.patch]. *)
Lemma Matches_versionRegex (s : string) :
  Matches versionRegex s <-> SemVer s.
Proof.
  unfold Matches, SemVer. simpl. split.
  - intros H.
    inversion H as [| | ? ? a w1 Ha K1 | | | |]; subst.
    inversion K1 as [| | ? ? d1 w2 Hd1 K2 | | | |]; subst.
    inversion K2 as [| | ? ? b w3 Hb K3 | | | |]; subst.
    inversion K3 as [| | ? ? d2 c Hd2 Hc | | | |]; subst.
    apply Lang_lit in Hd1, Hd2. subst.
    exists a, b, c. rewrite <- !Lang_numberPart.
    repeat split; try assumption; symmetry; assumption.
  - intros (a & b & c & E & Ha & Hb & Hc). rewrite E.
    apply Lang_numberPart in Ha, Hb, Hc.
    constructor; [assumption |].
    change ("."%char :: b ++ "."%char :: c)%list
      with (["."%char] ++ (b ++ ["."%char] ++ c))%list.
    constructor; [now apply Lang_lit |].
    constructor; [assumption |].
    constructor; [now apply Lang_lit | assumption].
Qed.

Lemma validateVersion_Matches (token : string) :
  validateVersion (Some token) = true <-> Matches versionRegex token.
Proof.
  unfold validateVersion, Regex.test, Matches. simpl.
  apply RegexFacts.matchFull_Lang.
Qed.

Lemma matchPrefix_Void (l : list ascii) : Regex.matchPrefix Regex.Void l = false.
Proof.
  induction l as [| c t IH]; simpl; [reflexivity | exact IH].
Qed.

Lemma invalidChars_class (c : ascii) :
  Regex.inClass true
    [("a"%char, "z"%char); ("A"%char, "Z"%char); ("0"%char, "9"%char);
     ("-"%char, "-"%char); ("_"%char, "_"%char); ("."%char, "."%char);
     ("/"%char, "/"%char)] c = negb (nameChar c).
Proof.
  destruct c as [[] [] [] [] [] [] [] []]; reflexivity.
Qed.

(** The search for an invalid character succeeds exactly on the names with a
    character outside the class. *)
Lemma test_invalidChars (s : string) :
  Regex.test invalidChars s = negb (nameChars s).
Proof.
  unfold Regex.test, nameChars. simpl.
  induction (list_ascii_of_string s) as [| c t IH]; [reflexivity |].
  cbn [Regex.anywhere Regex.matchPrefix Regex.nullable Regex.deriv forallb].
  rewrite invalidChars_class. destruct (nameChar c); simpl.
  - rewrite matchPrefix_Void. exact IH.
  - destruct t; reflexivity.
Qed.

Lemma isValidBranchName_accepts (word : string) :
  nameChars word = true -> isValidBranchName (Tokens [word]) = Ok true.
Proof.
  intros H. unfold isValidBranchName. cbn [isArray elements firstOrSelf List.length
    Nat.ltb Nat.leb andb nth_error Js.showOpt].
  now rewrite test_invalidChars, H.
Qed.

Lemma isValidBranchName_rejects (word : string) :
  nameChars word = false ->
  isValidBranchName (Tokens [word]) =
  exitWithError ("Invalid branch name '" ++ word ++
                 "'. Use only letters, numbers, hyphens and underscores.").
Proof.
  intros H. unfold isValidBranchName. cbn [isArray elements firstOrSelf List.length
    Nat.ltb Nat.leb andb nth_error Js.showOpt].
  now rewrite test_invalidChars, H.
Qed.

Lemma isValidBranchName_spaces (w1 w2 : string) (rest : list string) :
  isValidBranchName (Tokens (w1 :: w2 :: rest)) =
  exitWithError ("Branch name '" ++ Js.join " " (w1 :: w2 :: rest) ++
                 "' cannot contain spaces.").
Proof. reflexivity. Qed.

(** Whatever the input, the value returned on success is the flag [true],
    never the name. *)
Lemma isValidBranchName_flag (name : NameArg) (v : bool) :
  isValidBranchName name = Ok v -> v = true.
Proof.
  unfold isValidBranchName, exitWithError, exitWithMessage.
  destruct (isArray name && (1 <? List.length (elements name))%nat);
    [discriminate |].
  destruct (Regex.test invalidChars (Js.showOpt (firstOrSelf name)));
    cbn [negb]; congruence.
Qed.

(** C9. [isValidVersion] fails on an input of more than one word (and on
    an empty one); on a single word it returns that word when the word
    matches [versionRegex] and fails otherwise, so that [1.2], [01.2.3] and
    [1.2.3-rc1] are rejected. *)
Theorem isValidVersion_correct (version : list string) :
  match version with
  | [token] =>
      (Matches versionRegex token /\ isValidVersion version = Ok (Some token)) \/
      (~ Matches versionRegex token /\ exists text, isValidVersion version = Exit text)
  | _ => exists text, isValidVersion version = Exit text
  end /\
  (exists text, isValidVersion ["1.2"] = Exit text) /\
  (exists text, isValidVersion ["01.2.3"] = Exit text) /\
  (exists text, isValidVersion ["1.2.3-rc1"] = Exit text) /\
  isValidVersion ["1.2.3"] = Ok (Some "1.2.3").
Proof.
  split.
  - destruct version as [| token [| w rest]].
    + eexists. reflexivity.
    + unfold isValidVersion. simpl.
      destruct (validateVersion (Some token)) eqn:E; simpl.
      * left. split; [now apply validateVersion_Matches | reflexivity].
      * right. split.
        -- intros H. apply validateVersion_Matches in H. congruence.
        -- eexists. reflexivity.
    + eexists. reflexivity.
  - repeat split; try (eexists; reflexivity).
Qed.

(** ** Reasoning about runs *)

Section Triples.
Context {World : Type}.
Implicit Types (s : State World).

Lemma triple_ret {A} (a : A) (P : State World -> Prop) Q E :
  (forall s, P s -> Q a s) -> triple P (ret a) Q E.
Proof. intros H s Hs. now apply H. Qed.

Lemma triple_bind {A B} (m : M World A) (k : A -> M World B) P Q R E :
  triple P m Q E -> (forall a, triple (Q a) (k a) R E) -> triple P (bind m k) R E.
Proof.
  intros Hm Hk s Hs. unfold bind. specialize (Hm s Hs).
  destruct (m s) as [[a | text] s']; [| exact Hm].
  now apply Hk.
Qed.

Lemma triple_conseq {A} (m : M World A) (P P' : State World -> Prop) Q Q' E E' :
  triple P' m Q' E' ->
  (forall s, P s -> P' s) -> (forall a s, Q' a s -> Q a s) ->
  (forall t s, E' t s -> E t s) ->
  triple P m Q E.
Proof.
  intros H HP HQ HE s Hs. specialize (H s (HP s Hs)).
  destruct (m s) as [[a | text] s']; auto.
Qed.

Lemma triple_lift {A} (r : Res A) (P : State World -> Prop) Q E :
  (forall s, P s -> match r with Ok a => Q a s | Exit t => E t s end) ->
  triple P (lift r) Q E.
Proof. intros H s Hs. unfold lift. specialize (H s Hs). now destruct r. Qed.

Lemma triple_exitIf (cond : bool) (message : string) (P : State World -> Prop) Q E :
  (forall s, P s -> cond = false -> Q tt s) ->
  (forall s, P s -> cond = true -> E (errorMark ++ message) s) ->
  triple P (exitIf cond message) Q E.
Proof.
  intros HQ HE s Hs. unfold exitIf. destruct cond; cbn.
  - now apply HE.
  - now apply HQ.
Qed.

Lemma triple_addCommand (c : string) (P : State World -> Prop) Q E :
  (forall s, P s ->
     Q tt {| commands := (commands s ++ [c])%list; world := world s;
             history := (history s ++ [Enqueued c])%list |}) ->
  triple P (addCommand c) Q E.
Proof. intros H s Hs. now apply H. Qed.

Lemma triple_shellExec exec (c : string) (P : State World -> Prop) Q E :
  (forall s r w, P s ->
     Q r {| commands := commands s; world := w;
            history := (history s ++ [Executed c r])%list |}) ->
  triple P (shellExec exec c) Q E.
Proof.
  intros H s Hs. unfold shellExec. destruct (exec c (world s)) as [r w].
  now apply H.
Qed.

End Triples.

(** ** Histories of planning *)

Lemma enqueued_app (h1 h2 : list Event) :
  enqueued (h1 ++ h2) = (enqueued h1 ++ enqueued h2)%list.
Proof. unfold enqueued. apply flat_map_app. Qed.

Lemma snoc_eq_split {A} (h : list A) (e x : A) (pre post : list A) :
  (h ++ [e])%list = (pre ++ x :: post)%list ->
  (post = [] /\ pre = h /\ x = e) \/
  (exists post', post = (post' ++ [e])%list /\ h = (pre ++ x :: post')%list).
Proof.
  intros H. induction post as [| y post' _] using rev_ind.
  - left. apply app_inj_tail in H. destruct H as [-> ->]. now repeat split.
  - right. exists post'.
    change (pre ++ x :: post' ++ [y])%list with (pre ++ (x :: post') ++ [y])%list in H.
    rewrite app_assoc in H. apply app_inj_tail in H. destruct H as [-> ->].
    now split.
Qed.

Lemma Planned_nil : Planned [].
Proof.
  split; [constructor |]. split.
  - intros pre res post H. now destruct pre.
  - intros pre source post H. now destruct pre.
Qed.

Lemma Planned_snoc (h : list Event) (e : Event) :
  Planned h -> planningEvent e = true ->
  (forall res, e <> Executed conflictQuery res) ->
  (forall source, e <> Enqueued (mergeCmd source)) ->
  Planned (h ++ [e]).
Proof.
  intros (Hall & Hchk & Hmrg) He Hne Hnm. split; [| split].
  - apply Forall_app. split; [assumption | now constructor].
  - intros pre res post H.
    apply snoc_eq_split in H. destruct H as [(_ & _ & H) | (post' & _ & H)].
    + symmetry in H. now apply Hne in H.
    + now apply Hchk in H.
  - intros pre source post H.
    apply snoc_eq_split in H. destruct H as [(_ & _ & H) | (post' & -> & H)].
    + symmetry in H. now apply Hnm in H.
    + apply Hmrg in H. destruct H as (res & post'' & ->).
      now exists res, (post'' ++ [e])%list.
Qed.

Lemma not_merge (c source : string) : isMerge c = false -> Enqueued c <> Enqueued (mergeCmd source).
Proof. intros H [= ->]. discriminate H. Qed.

Lemma Planned_check (h : list Event) (target source : string) (res : ShellResult) :
  Planned h ->
  Planned (((h ++ [Enqueued (checkoutCmd target)]) ++ [Enqueued (mergeCmd source)]) ++
           [Executed conflictQuery res]).
Proof.
  intros (Hall & Hchk & Hmrg). split; [| split].
  - repeat (apply Forall_app; split); try assumption; now repeat constructor.
  - intros pre r post H.
    apply snoc_eq_split in H. destruct H as [(_ & -> & _) | (post1 & _ & H)].
    + exists h, target, source. now rewrite <- app_assoc.
    + apply snoc_eq_split in H. destruct H as [(_ & _ & H) | (post2 & _ & H)];
        [discriminate |].
      apply snoc_eq_split in H. destruct H as [(_ & _ & H) | (post3 & _ & H)];
        [discriminate |].
      now apply Hchk in H.
  - intros pre src post H.
    apply snoc_eq_split in H. destruct H as [(_ & _ & H) | (post1 & -> & H)];
      [discriminate |].
    apply snoc_eq_split in H. destruct H as [(-> & _ & _) | (post2 & -> & H)].
    + now exists res, [].
    + apply snoc_eq_split in H. destruct H as [(_ & _ & H) | (post3 & -> & H)].
      * cbn in H. discriminate H.
      * apply Hmrg in H. destruct H as (r & post4 & ->).
        exists r, (((post4 ++ [Enqueued (checkoutCmd target)]) ++
                    [Enqueued (mergeCmd source)]) ++ [Executed conflictQuery res])%list.
        reflexivity.
Qed.

Lemma NoReport_snoc (h : list Event) (e : Event) :
  NoReport h ->
  (forall res, e = Executed conflictQuery res -> reportsConflicts res = false) ->
  NoReport (h ++ [e]).
Proof.
  intros Hh He res Hin. apply in_app_iff in Hin. destruct Hin as [Hin | [Hin | []]].
  - now apply Hh.
  - now apply He.
Qed.

Lemma PushesOnly_snoc (h : list Event) (e : Event) :
  PushesOnly h ->
  (forall c, e = Enqueued c ->
     isDeletion c = false \/
     exists res, In (Executed currentQuery res) h /\ c = pushCmd (Js.trim (stdout res))) ->
  PushesOnly (h ++ [e]).
Proof.
  intros Hh He c Hin. apply in_app_iff in Hin.
  assert (Hmono : isDeletion c = false \/
                  (exists res, In (Executed currentQuery res) h /\
                               c = pushCmd (Js.trim (stdout res))) ->
                  isDeletion c = false \/
                  (exists res, In (Executed currentQuery res) (h ++ [e]) /\
                               c = pushCmd (Js.trim (stdout res)))).
  { intros [H | (res & Hres & Hc)]; [now left | right].
    exists res. split; [apply in_app_iff; now left | assumption]. }
  destruct Hin as [Hin | [Hin | []]]; apply Hmono.
  - now apply Hh.
  - now apply He.
Qed.

Section Planning.
Context {World : Type}.
Variable exec : string -> World -> ShellResult * World.
Variable config : Config.
Implicit Types (s : State World).

Lemma Planning_fresh (w : World) : Planning (fresh w).
Proof.
  split; [reflexivity |]. split; [exact Planned_nil |]. split.
  - intros res [].
  - intros c [].
Qed.

Lemma Planning_enqueue s (c : string) :
  Planning s -> isQuery c = false -> isDeletion c = false -> isMerge c = false ->
  Planning {| commands := (commands s ++ [c])%list; world := world s;
              history := (history s ++ [Enqueued c])%list |}.
Proof.
  intros (Hs & Hp & Hn & Hd) Hq Hdel Hm.
  split; [| split; [| split]]; cbn [commands history].
  - unfold Sync in *. cbn [commands history]. rewrite enqueued_app, Hs. reflexivity.
  - apply Planned_snoc;
      [assumption | cbn; now rewrite Hq | discriminate | intros; now apply not_merge].
  - apply NoReport_snoc; [assumption | discriminate].
  - apply PushesOnly_snoc; [assumption |].
    intros c' [= <-]. now left.
Qed.

Lemma Planning_query s (c : string) (r : ShellResult) (w : World) :
  Planning s -> isQuery c = true -> c <> conflictQuery ->
  Planning {| commands := commands s; world := w;
              history := (history s ++ [Executed c r])%list |}.
Proof.
  intros (Hs & Hp & Hn & Hd) Hq Hne.
  assert (Hc : forall res, Executed c r <> Executed conflictQuery res)
    by (intros res [= E _]; contradiction).
  split; [| split; [| split]]; cbn [commands history].
  - unfold Sync in *. cbn [commands history]. rewrite enqueued_app, Hs.
    cbn. now rewrite app_nil_r.
  - apply Planned_snoc; [assumption | assumption | exact Hc | discriminate].
  - apply NoReport_snoc; [assumption |]. intros res E. now apply Hc in E.
  - apply PushesOnly_snoc; [assumption | discriminate].
Qed.

Lemma Planning_Stopped s (text : string) : Planning s -> Stopped text s.
Proof.
  intros (Hs & Hp & Hn & Hd). split; [assumption |]. split; [assumption |].
  split; [assumption |]. intros res Hin Hrep. apply Hn in Hin. congruence.
Qed.

Lemma Planning_Ended s (text : string) : Planning s -> Ended text s.
Proof. intros H. left. now apply Planning_Stopped. Qed.

Lemma Planning_Ready s : Planning s -> Ready s.
Proof. intros (Hs & Hp & Hn & _). split; [| split]; assumption. Qed.

Lemma Ready_enqueue s (c : string) :
  Ready s -> isQuery c = false -> isMerge c = false ->
  Ready {| commands := (commands s ++ [c])%list; world := world s;
           history := (history s ++ [Enqueued c])%list |}.
Proof.
  intros (Hs & Hp & Hn) Hq Hm. split; [| split].
  - unfold Sync in *. cbn [commands history]. rewrite enqueued_app, Hs. reflexivity.
  - apply Planned_snoc;
      [assumption | cbn; now rewrite Hq | discriminate | intros; now apply not_merge].
  - apply NoReport_snoc; [assumption | discriminate].
Qed.

Lemma Ready_Flushed s : Ready s -> Flushed s.
Proof.
  intros (Hs & Hp & Hn). exists (history s), []. rewrite app_nil_r.
  split; [reflexivity |]. split; [assumption |]. split; [assumption |].
  split; [assumption | constructor].
Qed.

(** *** What each method does to a planning instance *)

Ltac differ := let H := fresh in intros H; cbn in H; discriminate H.

Lemma ret_planning {A} (a : A) :
  triple Planning (ret (World := World) a) (fun _ => Planning) Ended.
Proof. apply triple_ret. auto. Qed.

Lemma exitIf_planning (cond : bool) (message : string) :
  triple Planning (exitIf (World := World) cond message) (fun _ => Planning) Ended.
Proof. apply triple_exitIf; intros; [assumption | now apply Planning_Ended]. Qed.

Lemma lift_planning {A} (r : Res A) :
  triple Planning (lift (World := World) r) (fun _ => Planning) Ended.
Proof. apply triple_lift. intros s Hs. destruct r; [assumption | now apply Planning_Ended]. Qed.

Lemma addCommand_planning (c : string) :
  isQuery c = false -> isDeletion c = false -> isMerge c = false ->
  triple Planning (addCommand (World := World) c) (fun _ => Planning) Ended.
Proof.
  intros Hq Hd Hm. apply triple_addCommand. intros s Hs. now apply Planning_enqueue.
Qed.

Lemma shellExec_planning (c : string) :
  isQuery c = true -> c <> conflictQuery ->
  triple Planning (shellExec exec c) (fun _ => Planning) Ended.
Proof. intros Hq Hne. apply triple_shellExec. intros s r w Hs. now apply Planning_query. Qed.

Ltac plan :=
  repeat first
    [ apply ret_planning
    | apply exitIf_planning
    | apply lift_planning
    | apply addCommand_planning; reflexivity
    | apply shellExec_planning; [reflexivity | differ]
    | eapply triple_bind; [| intros ?]
    | assumption ].

Lemma getCurrentBranchName_planning :
  triple Planning (getCurrentBranchName exec) (fun _ => Planning) Ended.
Proof. unfold getCurrentBranchName. plan. Qed.

Lemma branchExistsLocal_planning (branch : string) :
  triple Planning (branchExistsLocal exec branch) (fun _ => Planning) Ended.
Proof. unfold branchExistsLocal. plan. Qed.

Lemma branchesMatch_planning (b1 b2 : string) :
  triple Planning (branchesMatch exec b1 b2) (fun _ => Planning) Ended.
Proof. unfold branchesMatch. plan. Qed.

Lemma checkWorkingTreeClean_planning :
  triple Planning (checkWorkingTreeClean exec) (fun _ => Planning) Ended.
Proof. unfold checkWorkingTreeClean. plan. Qed.

Lemma checkoutBranch_planning (branch : string) :
  triple Planning (checkoutBranch exec branch) (fun _ => Planning) Ended.
Proof.
  unfold checkoutBranch. eapply triple_bind; [apply getCurrentBranchName_planning |].
  intros cur. destruct (String.eqb cur branch); [apply ret_planning |].
  eapply triple_bind; [apply branchExistsLocal_planning | intros found].
  eapply triple_bind; [apply exitIf_planning | intros ?].
  eapply triple_bind; [apply checkWorkingTreeClean_planning | intros ?].
  plan.
Qed.

Lemma checkoutToMain_planning :
  triple Planning (checkoutToMain exec config) (fun _ => Planning) Ended.
Proof.
  unfold checkoutToMain.
  eapply triple_bind; [apply exitIf_planning | intros ?].
  eapply triple_bind; [apply getCurrentBranchName_planning | intros cur].
  destruct (String.eqb (mainBranch config) cur);
    [apply ret_planning | apply checkoutBranch_planning].
Qed.

Lemma checkoutToDevelop_planning :
  triple Planning (checkoutToDevelop exec config) (fun _ => Planning) Ended.
Proof.
  unfold checkoutToDevelop.
  eapply triple_bind; [apply exitIf_planning | intros ?].
  eapply triple_bind; [apply getCurrentBranchName_planning | intros cur].
  destruct (String.eqb (developBranch config) cur);
    [apply ret_planning | apply checkoutBranch_planning].
Qed.

Lemma checkoutToStaging_planning :
  triple Planning (checkoutToStaging exec config) (fun _ => Planning) Ended.
Proof.
  unfold checkoutToStaging.
  eapply triple_bind; [apply exitIf_planning | intros ?].
  destruct (stagingBranch config) as [staging |]; [| apply lift_planning].
  eapply triple_bind; [apply exitIf_planning | intros ?].
  eapply triple_bind; [apply getCurrentBranchName_planning | intros cur].
  destruct (String.eqb staging cur);
    [apply ret_planning | apply checkoutBranch_planning].
Qed.

Lemma addTag_planning (version : string) :
  triple Planning (addTag (World := World) version) (fun _ => Planning) Ended.
Proof. unfold addTag. plan. Qed.

(** [pushBranch] queues the push of the name it reads now. *)
Lemma pushBranch_planning :
  triple Planning (pushBranch exec) (fun _ => Planning) Ended.
Proof.
  intros s Hs.
  unfold pushBranch, getCurrentBranchName, bind, shellExec, ret, addCommand.
  destruct (exec "git branch --show-current" (world s)) as [r w].
  cbn [commands world history].
  pose proof (Planning_query s currentQuery r w Hs eq_refl) as H1.
  assert (Hne : currentQuery <> conflictQuery) by discriminate.
  specialize (H1 Hne). destruct H1 as (Hs1 & Hp1 & Hn1 & Hd1).
  cbn [commands world history] in *.
  split; [| split; [| split]]; cbn [commands history].
  - unfold Sync in *. cbn [commands history] in *.
    rewrite enqueued_app, Hs1. reflexivity.
  - apply Planned_snoc; [assumption | reflexivity | discriminate |].
    intros source E. cbn in E. discriminate E.
  - apply NoReport_snoc; [assumption | discriminate].
  - apply PushesOnly_snoc; [assumption |].
    intros c [= <-]. right. exists r. split; [| reflexivity].
    apply in_app_iff. right. now left.
Qed.

Lemma reportsConflicts_stderr (r : ShellResult) :
  Js.truthy (stderr r) = true -> reportsConflicts r = false.
Proof. unfold reportsConflicts. now intros ->. Qed.

Lemma reportsConflicts_none (r : ShellResult) :
  (0 <? List.length (conflictsOf r))%nat = false -> reportsConflicts r = false.
Proof. unfold reportsConflicts. intros ->. apply andb_false_r. Qed.

Lemma checked_Sync s source target r w : Sync s -> Sync (checked s source target r w).
Proof.
  unfold Sync, checked. cbn [commands history]. intros ->.
  rewrite !enqueued_app. cbn. now rewrite app_nil_r.
Qed.

Lemma checked_PushesOnly s source target r w :
  PushesOnly (history s) -> PushesOnly (history (checked s source target r w)).
Proof.
  intros H. unfold checked. cbn [history].
  apply PushesOnly_snoc; [| discriminate].
  apply PushesOnly_snoc; [| intros c [= <-]; now left].
  apply PushesOnly_snoc; [assumption | intros c [= <-]; now left].
Qed.

Lemma checked_Planning s source target r w :
  Planning s -> reportsConflicts r = false -> Planning (checked s source target r w).
Proof.
  intros (Hs & Hp & Hn & Hd) Hr. split; [| split; [| split]].
  - now apply checked_Sync.
  - now apply Planned_check.
  - unfold checked. cbn [history].
    apply NoReport_snoc; [| intros res [= <-]; exact Hr].
    apply NoReport_snoc; [| discriminate].
    apply NoReport_snoc; [assumption | discriminate].
  - now apply checked_PushesOnly.
Qed.

Lemma checked_Stopped s source target r w (text : string) :
  Planning s -> (reportsConflicts r = true -> text = conflictMessage) ->
  Stopped text (checked s source target r w).
Proof.
  intros (Hs & Hp & Hn & Hd) Ht. split; [| split; [| split]].
  - now apply checked_Sync.
  - now apply Planned_check.
  - now apply checked_PushesOnly.
  - intros res Hin Hrep. unfold checked in Hin |- *. cbn [history] in Hin |- *.
    apply in_app_iff in Hin. destruct Hin as [Hin | [[= <-] | []]].
    + apply in_app_iff in Hin. destruct Hin as [Hin | [Hin | []]]; [| discriminate].
      apply in_app_iff in Hin. destruct Hin as [Hin | [Hin | []]]; [| discriminate].
      apply Hn in Hin. congruence.
    + split; [now apply Ht | eexists; reflexivity].
Qed.

Lemma mergeBranch_planning (source target : string) :
  triple Planning (mergeBranch exec config source target) (fun _ => Planning) Ended.
Proof.
  intros s Hs.
  unfold mergeBranch, checkMergeConflicts, bind, addCommand, shellExec.
  cbn [commands world history].
  destruct (exec conflictQuery (world s)) as [r w].
  fold (checkoutCmd target). fold (mergeCmd source).
  change {| commands := ((commands s ++ [checkoutCmd target]) ++ [mergeCmd source])%list;
            world := w;
            history := (((history s ++ [Enqueued (checkoutCmd target)]) ++
                         [Enqueued (mergeCmd source)]) ++ [Executed conflictQuery r])%list |}
    with (checked s source target r w).
  destruct (Js.truthy (stderr r)) eqn:Eerr; cbn [exitIf lift exitWithError exitWithMessage ret].
  - left. apply checked_Stopped; [assumption |].
    rewrite (reportsConflicts_stderr r Eerr). discriminate.
  - destruct (0 <? List.length (conflictsOf r))%nat eqn:Ecnt;
      cbn [exitIf lift exitWithError exitWithMessage ret].
    + left. apply checked_Stopped; [assumption | reflexivity].
    + assert (Hc : Planning (checked s source target r w))
        by (apply checked_Planning; [assumption | now apply reportsConflicts_none]).
      destruct (pushBranches config).
      * now apply pushBranch_planning.
      * exact Hc.
Qed.

Lemma deleteBranch_planning (branch : string) :
  triple Planning (deleteBranch exec config branch) (fun _ => Ready) Ended.
Proof.
  unfold deleteBranch.
  eapply triple_bind; [apply branchExistsLocal_planning | intros found].
  eapply triple_bind; [apply exitIf_planning | intros ?].
  eapply triple_bind with (Q := fun _ => Ready).
  - apply triple_addCommand. intros s Hs.
    apply Ready_enqueue; [now apply Planning_Ready | reflexivity | reflexivity].
  - intros ?. destruct (pushBranches config).
    + apply triple_addCommand. intros s Hs.
      apply Ready_enqueue; [assumption | reflexivity | reflexivity].
    + apply triple_ret. auto.
Qed.

(** *** Flushing the queue *)

Lemma enqueued_not_queries (plan : list Event) :
  Forall (fun e => planningEvent e = true) plan ->
  Forall (fun c => isQuery c = false) (enqueued plan).
Proof.
  induction 1 as [| e plan He _ IH]; [constructor |].
  destruct e as [c | c r]; cbn; [| exact IH].
  constructor; [| exact IH]. cbn in He. now destruct (isQuery c).
Qed.

Lemma execAll_flushes (queue : list string) :
  Forall (fun c => isQuery c = false) queue ->
  triple Flushed (execAll exec queue) (fun _ => Flushed) (fun _ => Flushed).
Proof.
  induction 1 as [| c rest Hc _ IH]; cbn [execAll].
  - apply triple_ret. auto.
  - assert (Hstep : forall s r (w : World), Flushed s ->
              Flushed {| commands := commands s; world := w;
                         history := (history s ++ [Executed c r])%list |}).
    { intros s r w (plan & flush & Hh & Hq & Hp & Hn & Hf).
      exists plan, (flush ++ [Executed c r])%list. cbn [commands history].
      rewrite Hh, <- app_assoc. repeat (split; [easy |]).
      apply Forall_app. split; [assumption |].
      constructor; [cbn; now rewrite Hc | constructor]. }
    eapply triple_bind with (Q := fun _ s => Flushed s).
    + apply triple_shellExec. intros s r w Hs. now apply Hstep.
    + intros result. eapply triple_bind with (Q := fun _ s => Flushed s).
      * apply triple_exitIf; auto.
      * intros ?. exact IH.
Qed.

Lemma runCommands_flushes :
  triple Ready (runCommands exec config) (fun _ => Flushed) Ended.
Proof.
  intros s Hs. unfold runCommands. destruct (debug config).
  - right. now apply Ready_Flushed.
  - pose proof Hs as (Hsync & [Hall _] & _).
    pose proof (execAll_flushes (commands s)) as H.
    rewrite Hsync in H at 1. specialize (H (enqueued_not_queries _ Hall) s).
    specialize (H (Ready_Flushed s Hs)).
    destruct (execAll exec (commands s) s) as [[[] | text] s']; [assumption |].
    now right.
Qed.

(** *** The finish operations *)

Lemma staging_planning (source : string) :
  triple Planning
    (if useStaging config then
       bind (checkoutToStaging exec config)
            (fun _ => mergeBranch exec config source (Js.showOpt (stagingBranch config)))
     else ret tt)
    (fun _ => Planning) Ended.
Proof.
  destruct (useStaging config); [| apply ret_planning].
  eapply triple_bind; [apply checkoutToStaging_planning | intros ?].
  apply mergeBranch_planning.
Qed.

Ltac leaf :=
  first
    [ apply lift_planning | apply exitIf_planning | apply ret_planning
    | apply branchExistsLocal_planning | apply branchesMatch_planning
    | apply checkoutToMain_planning | apply checkoutToDevelop_planning
    | apply staging_planning | apply mergeBranch_planning | apply addTag_planning ].

Ltac finishing :=
  repeat (eapply triple_bind; [leaf | intros ?]);
  eapply triple_bind; [apply deleteBranch_planning | intros ?];
  apply runCommands_flushes.

Lemma finishFeature_ends (name : NameArg) :
  triple Planning (finishFeature exec config name) (fun _ => Flushed) Ended.
Proof. unfold finishFeature. finishing. Qed.

Lemma finishRelease_ends (version : list string) :
  triple Planning (finishRelease exec config version) (fun _ => Flushed) Ended.
Proof. unfold finishRelease. finishing. Qed.

Lemma finishBugfix_ends (name : NameArg) :
  triple Planning (finishBugfix exec config name) (fun _ => Flushed) Ended.
Proof. unfold finishBugfix. finishing. Qed.

Lemma finishHotfix_ends (name : NameArg) :
  triple Planning (finishHotfix exec config name) (fun _ => Flushed) Ended.
Proof. unfold finishHotfix. finishing. Qed.

Lemma finish_ends (kind : Kind) (words : list string) (w : World) :
  match finish exec config kind words (fresh w) with
  | (Ok _, s') => Flushed s'
  | (Exit text, s') => Ended text s'
  end.
Proof.
  pose proof (Planning_fresh w) as H.
  destruct kind; cbn [finish].
  - now apply finishFeature_ends.
  - now apply finishRelease_ends.
  - now apply finishBugfix_ends.
  - now apply finishHotfix_ends.
Qed.

(** *** What the history of a finish operation looks like *)

Lemma Planned_split (h pre post : list Event) (res : ShellResult) :
  Planned h -> h = (pre ++ Executed conflictQuery res :: post)%list ->
  (exists pre' target source,
     pre = (pre' ++ [Enqueued (checkoutCmd target); Enqueued (mergeCmd source)])%list) /\
  Forall (fun e => planningEvent e = true) pre.
Proof.
  intros (Hall & Hchk & _) E. split.
  - now apply (Hchk pre res post).
  - rewrite E in Hall. now apply Forall_app in Hall.
Qed.

Lemma flush_no_query (flush : list Event) (c : string) (r : ShellResult) :
  Forall (fun e => flushEvent e = true) flush -> In (Executed c r) flush ->
  isQuery c = false.
Proof.
  intros Hall Hin. rewrite Forall_forall in Hall. apply Hall in Hin.
  cbn in Hin. now destruct (isQuery c).
Qed.

Lemma Flushed_split (s : State World) (pre post : list Event) (res : ShellResult) :
  Flushed s -> history s = (pre ++ Executed conflictQuery res :: post)%list ->
  (exists pre' target source,
     pre = (pre' ++ [Enqueued (checkoutCmd target); Enqueued (mergeCmd source)])%list) /\
  Forall (fun e => planningEvent e = true) pre.
Proof.
  intros (plan & flush & Hh & _ & Hp & _ & Hf) E. rewrite Hh in E.
  apply app_eq_app in E. destruct E as [l [[E1 E2] | [E1 E2]]].
  - destruct l as [| x l'].
    + cbn in E2. subst flush.
      assert (H : isQuery conflictQuery = false)
        by (eapply flush_no_query; [exact Hf | now left]).
      discriminate H.
    + cbn in E2. injection E2 as <- _. now apply (Planned_split plan pre l' res).
  - assert (H : isQuery conflictQuery = false).
    { eapply flush_no_query; [exact Hf |]. rewrite E2. apply in_app_iff. right. now left. }
    discriminate H.
Qed.

Lemma Flushed_merges (s : State World) : Flushed s -> MergesChecked (history s).
Proof.
  intros (plan & flush & Hh & _ & (_ & _ & Hm) & _ & Hf) pre source post E.
  rewrite Hh in E. apply app_eq_app in E. destruct E as [l [[E1 E2] | [E1 E2]]].
  - destruct l as [| x l'].
    + cbn [app] in E2. subst flush. apply Forall_inv in Hf. discriminate Hf.
    + cbn [app] in E2. injection E2 as Ex Ep. subst x post.
      apply Hm in E1. destruct E1 as (res & post' & ->).
      now exists res, (post' ++ flush)%list.
  - rewrite E2 in Hf. apply Forall_app in Hf. destruct Hf as [_ Hf].
    apply Forall_inv in Hf. discriminate Hf.
Qed.

Lemma Flushed_no_report (s : State World) (res : ShellResult) :
  Flushed s -> In (Executed conflictQuery res) (history s) ->
  reportsConflicts res = false.
Proof.
  intros (plan & flush & Hh & _ & _ & Hn & Hf) Hin. rewrite Hh in Hin.
  apply in_app_iff in Hin. destruct Hin as [Hin | Hin].
  - now apply Hn.
  - apply (flush_no_query flush) in Hin; [discriminate Hin | assumption].
Qed.

Lemma In_enqueued (h : list Event) (c : string) :
  In c (enqueued h) -> In (Enqueued c) h.
Proof.
  unfold enqueued. rewrite in_flat_map. intros ([c' | c' r] & Hin & Hc).
  - destruct Hc as [<- | []]. exact Hin.
  - destruct Hc.
Qed.

(** C7. In every finish operation, each merge that is put in the queue is
    followed at once by a run of the conflict query, and each run of the
    conflict query comes right after the checkout and the merge of its step
    were enqueued and before anything of the queue is executed: up to that
    point the instance has executed nothing but queries, so the query reads
    a working tree on which the queued merge has not run. *)
Theorem conflict_check_before_flush (kind : Kind) (words : list string) (w : World) :
  let h := history (snd (finish exec config kind words (fresh w))) in
  (forall pre source post,
     h = (pre ++ Enqueued (mergeCmd source) :: post)%list ->
     exists res post', post = Executed conflictQuery res :: post') /\
  (forall pre res post,
     h = (pre ++ Executed conflictQuery res :: post)%list ->
     (exists pre' target source,
        pre = (pre' ++ [Enqueued (checkoutCmd target);
                        Enqueued (mergeCmd source)])%list) /\
     (forall c r, In (Executed c r) pre -> isQuery c = true) /\
     (forall c, In (Enqueued c) pre -> isQuery c = false)).
Proof.
  intros h. subst h.
  pose proof (finish_ends kind words w) as H.
  destruct (finish exec config kind words (fresh w)) as [[u | text] s'];
    cbn [snd]; split.
  1, 3: (try destruct H as [(_ & (_ & _ & Hm) & _) | H]);
          [try exact Hm; now apply Flushed_merges ..].
  all: intros pre res post E.
  all: assert (K : (exists pre' target source,
                      pre = (pre' ++ [Enqueued (checkoutCmd target);
                                      Enqueued (mergeCmd source)])%list) /\
                   Forall (fun e => planningEvent e = true) pre)
         by (try destruct H as [(_ & Hp & _) | H];
             [try (now apply (Planned_split (history s') pre post res));
              now apply (Flushed_split s' pre post res) ..]).
  all: destruct K as [K1 K2]; rewrite Forall_forall in K2.
  all: split; [exact K1 | split].
  all: intros c; intros; match goal with I : In _ _ |- _ => apply K2 in I; cbn in I end.
  all: try assumption; now destruct (isQuery c).
Qed.

(** C6. In every finish operation, when the conflict query of a merge step
    reports unresolved paths, the operation exits with the conflict message
    and that report is the last thing that happens: nothing is enqueued or
    executed after it, nothing of the queue has been executed, and no
    deletion of a branch is in the queue (for the remote deletion, as long
    as the repository never names a current branch that reads as the
    delete option). *)
Theorem finish_stops_on_conflict (kind : Kind) (words : list string) (w : World)
    (res : ShellResult) :
  In (Executed conflictQuery res)
     (history (snd (finish exec config kind words (fresh w)))) ->
  reportsConflicts res = true ->
  let run := finish exec config kind words (fresh w) in
  fst run = Exit conflictMessage /\
  (exists pre, history (snd run) = (pre ++ [Executed conflictQuery res])%list) /\
  (forall c r, In (Executed c r) (history (snd run)) -> isQuery c = true) /\
  (forall branch, ~ In (deleteCmd branch) (commands (snd run))) /\
  ((forall cur, In (Executed currentQuery cur) (history (snd run)) ->
                startsWith "--delete " (Js.trim (stdout cur)) = false) ->
   forall branch, ~ In (deleteRemoteCmd branch) (commands (snd run))).
Proof.
  intros Hin Hrep run. subst run. pose proof (finish_ends kind words w) as H.
  destruct (finish exec config kind words (fresh w)) as [[u | text] s'];
    cbn [fst snd] in *.
  - apply (Flushed_no_report s' res) in H; [congruence | assumption].
  - destruct H as [(Hs & [Hall _] & Hd & Hlast) | H];
      [| apply (Flushed_no_report s' res) in H; [congruence | assumption]].
    destruct (Hlast res Hin Hrep) as [-> Hpre].
    split; [reflexivity |]. split; [exact Hpre |]. split; [| split].
    + intros c r Hc. rewrite Forall_forall in Hall. apply Hall in Hc. exact Hc.
    + intros branch Hb. rewrite Hs in Hb. apply In_enqueued, Hd in Hb.
      destruct Hb as [Hb | (cur & _ & Hb)]; [discriminate Hb |].
      cbn in Hb. discriminate Hb.
    + intros Hsane branch Hb. rewrite Hs in Hb. apply In_enqueued, Hd in Hb.
      destruct Hb as [Hb | (cur & Hcur & Hb)]; [discriminate Hb |].
      apply Hsane in Hcur. cbn in Hb. injection Hb as Hb.
      rewrite <- Hb in Hcur. discriminate Hcur.
Qed.

End Planning.

(** ** The queue of a finished release *)

Section Queues.
Context {World : Type}.
Variable exec : string -> World -> ShellResult * World.
Variable config : Config.
Implicit Types (s : State World).

Lemma delta_bind {A B} (m : M World A) (k : A -> M World B) O1 E1 O2 E2 :
  delta m O1 E1 -> (forall a, delta (k a) O2 E2) ->
  delta (bind m k)
    (fun cs => exists c1 c2, cs = (c1 ++ c2)%list /\ O1 c1 /\ O2 c2)
    (fun cs => E1 cs \/ exists c1 c2, cs = (c1 ++ c2)%list /\ O1 c1 /\ E2 c2).
Proof.
  intros Hm Hk s. unfold bind. specialize (Hm s).
  destruct (m s) as [[a | text] s1].
  - destruct Hm as (c1 & H1 & HO1). specialize (Hk a s1).
    destruct (k a s1) as [[b | text] s2]; destruct Hk as (c2 & H2 & HO2);
      exists (c1 ++ c2)%list; (split; [rewrite H2, H1; now rewrite app_assoc |]).
    + now exists c1, c2.
    + right. now exists c1, c2.
  - destruct Hm as (c1 & H1 & HE1). exists c1. split; [assumption | now left].
Qed.

Lemma delta_conseq {A} (m : M World A) (O O' E E' : list string -> Prop) :
  delta m O E -> (forall cs, O cs -> O' cs) -> (forall cs, E cs -> E' cs) ->
  delta m O' E'.
Proof.
  intros H HO HE s. specialize (H s).
  destruct (m s) as [[a | text] s']; destruct H as (cs & H1 & H2);
    exists cs; split; auto.
Qed.

(** Runs a method on a symbolic state, one shell answer and one test at a
    time. *)
Ltac explore :=
  repeat match goal with
         | |- context [exec ?c ?w] =>
             let r := fresh "r" in
             let w' := fresh "w" in
             destruct (exec c w) as [r w']
         | |- context [if ?b then _ else _] => destruct b
         | _ => progress cbn -[String.append]
         end.

Ltac unfold_engine :=
  unfold checkoutToMain, checkoutToDevelop, checkoutToStaging, checkoutBranch,
    mergeBranch, pushBranch, deleteBranch, createBranch, addTag,
    checkMergeConflicts, getCurrentBranchName, branchExistsLocal, branchesMatch,
    checkWorkingTreeClean, bind, shellExec, ret, addCommand, exitIf, lift,
    exitWithError, exitWithMessage;
  cbn [fst snd commands world history].

Ltac adds_nothing :=
  exists (@nil string); split; [now rewrite app_nil_r | solve [reflexivity | now left]].

Lemma exitIf_delta (cond : bool) (message : string) :
  delta (exitIf (World := World) cond message) nothing nothing.
Proof. intros s. unfold_engine. explore; adds_nothing. Qed.

Lemma branchExistsLocal_delta (branch : string) :
  delta (branchExistsLocal exec branch) nothing nothing.
Proof. intros s. unfold_engine. explore; adds_nothing. Qed.

Lemma execAll_delta (queue : list string) : delta (execAll exec queue) nothing nothing.
Proof.
  induction queue as [| c rest IH]; intros s; cbn [execAll].
  - adds_nothing.
  - unfold bind, shellExec. destruct (exec c (world s)) as [r w].
    unfold exitIf. destruct (nonZero r); cbn.
    + adds_nothing.
    + exact (IH {| commands := commands s; world := w;
                   history := (history s ++ [Executed c r])%list |}).
Qed.

Lemma runCommands_delta : delta (runCommands exec config) nothing nothing.
Proof.
  intros s. unfold runCommands. destruct (debug config).
  - adds_nothing.
  - exact (execAll_delta (commands s) s).
Qed.

Lemma NoDelete_nil : NoDelete [].
Proof. intros b []. Qed.

Lemma NoDelete_app (c1 c2 : list string) :
  NoDelete c1 -> NoDelete c2 -> NoDelete (c1 ++ c2).
Proof.
  intros H1 H2 b Hin. apply in_app_iff in Hin.
  destruct Hin as [Hin | Hin]; [now apply (H1 b) | now apply (H2 b)].
Qed.

Lemma NoDelete_nothing (cs : list string) : nothing cs -> NoDelete cs.
Proof. intros ->. apply NoDelete_nil. Qed.

Lemma NoDelete_optCheckout (branch : string) (cs : list string) :
  optCheckout branch cs -> NoDelete cs.
Proof.
  intros [-> | ->] b Hin; [destruct Hin |].
  destruct Hin as [H | [H | []]]; cbn in H; discriminate H.
Qed.

Lemma NoDelete_merge (source target : string) : NoDelete [checkoutCmd target; mergeCmd source].
Proof. intros b [H | [H | []]]; cbn in H; discriminate H. Qed.

Lemma NoDelete_mergeAdds (push : bool) (source target : string) (cs : list string) :
  mergeAdds push source target cs -> NoDelete cs.
Proof.
  intros (p & -> & Hp). apply NoDelete_app; [apply NoDelete_merge |].
  destruct push; cbn in Hp.
  - destruct Hp as (b' & ->). intros b [H | []]. cbn in H. discriminate H.
  - subst p. apply NoDelete_nil.
Qed.

Lemma NoDelete_tag (version : string) : NoDelete [tagCmd version].
Proof. intros b [H | []]. cbn in H. discriminate H. Qed.

Lemma exitIf_quiet (cond : bool) (message : string) :
  delta (exitIf (World := World) cond message) nothing NoDelete.
Proof.
  eapply delta_conseq; [apply exitIf_delta | auto | apply NoDelete_nothing].
Qed.

Lemma branchExistsLocal_quiet (branch : string) :
  delta (branchExistsLocal exec branch) nothing NoDelete.
Proof.
  eapply delta_conseq; [apply branchExistsLocal_delta | auto | apply NoDelete_nothing].
Qed.

Lemma checkoutToMain_delta :
  delta (checkoutToMain exec config) (optCheckout (mainBranch config)) NoDelete.
Proof.
  intros s. unfold_engine. explore;
    try (exists (@nil string); split;
         [now rewrite app_nil_r | solve [apply NoDelete_nil | now left]]).
  exists [checkoutCmd (mainBranch config); pullCmd].
  split; [now rewrite <- app_assoc | now right].
Qed.

Lemma checkoutToDevelop_delta :
  delta (checkoutToDevelop exec config) (optCheckout (developBranch config)) NoDelete.
Proof.
  intros s. unfold_engine. explore;
    try (exists (@nil string); split;
         [now rewrite app_nil_r | solve [apply NoDelete_nil | now left]]).
  exists [checkoutCmd (developBranch config); pullCmd].
  split; [now rewrite <- app_assoc | now right].
Qed.

Lemma checkoutToStaging_delta :
  delta (checkoutToStaging exec config)
    (fun cs => exists staging,
       stagingBranch config = Some staging /\ optCheckout staging cs)
    NoDelete.
Proof.
  intros s. unfold checkoutToStaging.
  destruct (stagingBranch config) as [staging |]; unfold_engine; explore;
    try (exists (@nil string); split;
         [now rewrite app_nil_r
         | solve [apply NoDelete_nil | exists staging; split; [reflexivity | now left]]]).
  exists [checkoutCmd staging; pullCmd].
  split; [now rewrite <- app_assoc |].
  exists staging. split; [reflexivity | now right].
Qed.

Lemma mergeBranch_delta (source target : string) :
  delta (mergeBranch exec config source target)
    (mergeAdds (pushBranches config) source target) NoDelete.
Proof.
  intros s. unfold_engine. destruct (pushBranches config); explore.
  all: try (exists [checkoutCmd target; mergeCmd source];
            split; [now rewrite <- app_assoc | apply NoDelete_merge]).
  - eexists. split; [| eexists; split; [reflexivity | eexists; reflexivity]].
    cbn. now rewrite <- !app_assoc.
  - eexists. split; [| eexists; split; [reflexivity | reflexivity]].
    cbn. now rewrite <- !app_assoc.
Qed.

Lemma addTag_delta (version : string) :
  delta (addTag (World := World) version) (fun cs => cs = [tagCmd version]) NoDelete.
Proof. intros s. unfold_engine. cbn. now exists [tagCmd version]. Qed.

Lemma deleteBranch_delta (branch : string) :
  delta (deleteBranch exec config branch)
    (fun cs => cs = deleteCmd branch ::
                    (if pushBranches config then [deleteRemoteCmd branch] else []))
    NoDelete.
Proof.
  intros s. unfold_engine. destruct (pushBranches config); explore.
  all: try (exists (@nil string); split; [now rewrite app_nil_r | apply NoDelete_nil]).
  - eexists. split; [| reflexivity]. now rewrite <- app_assoc.
  - eexists. split; [| reflexivity]. reflexivity.
Qed.

Lemma isValidVersion_Ok (words : list string) (v' : option string) :
  isValidVersion words = Ok v' -> exists v, words = [v] /\ v' = Some v.
Proof.
  unfold isValidVersion. destruct words as [| v [| v2 rest]].
  - intros H. vm_compute in H. discriminate H.
  - cbn [List.length Nat.ltb Nat.leb nth_error].
    destruct (validateVersion (Some v)); cbn [negb]; [| discriminate].
    intros [= <-]. now exists v.
  - discriminate.
Qed.

Ltac unpack :=
  repeat match goal with
         | H : exists _, _ |- _ => destruct H
         | H : _ /\ _ |- _ => destruct H
         | H : nothing _ |- _ => unfold nothing in H
         | H : mergeAdds _ _ _ _ |- _ => unfold mergeAdds in H
         end;
  subst.

Ltac build_queue version :=
  match goal with E : stagingBranch _ = Some ?st |- _ =>
    exists version, st; rewrite E; cbn [Js.showOpt] end;
  split; [reflexivity |]; split; [reflexivity |];
  repeat rewrite <- app_assoc; cbn [app]; rewrite ?app_nil_r;
  match goal with
  | |- ReleaseQueue _ _ _
         (?c1 ++ ?a1 :: ?b1 :: ?p1 ++ _ :: ?c2 ++ ?a2 :: ?b2 :: ?p2 ++
          ?c3 ++ ?a3 :: ?b3 :: ?p3 ++ _)%list =>
      exists (c1 ++ [a1; b1] ++ p1)%list, (c2 ++ [a2; b2] ++ p2)%list,
             (c3 ++ [a3; b3] ++ p3)%list;
      split; [| split; [| split]];
      [ cbn zeta; repeat rewrite <- app_assoc; cbn [app]; reflexivity
      | exists c1, p1 | exists c2, p2 | exists c3, p3 ];
      (split; [reflexivity | split; assumption])
  end.

Lemma finishRelease_delta (words : list string) :
  useStaging config = true ->
  delta (finishRelease exec config words)
    (fun cs => exists version staging,
       words = [version] /\ stagingBranch config = Some staging /\
       ReleaseQueue config version staging cs)
    (fun cs => NoDelete cs \/
       exists version staging,
         words = [version] /\ stagingBranch config = Some staging /\
         ReleaseQueue config version staging cs).
Proof.
  intros Hstaging s. unfold finishRelease. unfold bind at 1. unfold lift at 1.
  destruct (isValidVersion words) as [v' | text] eqn:Ev.
  2: { exists (@nil string). split; [now rewrite app_nil_r | left; apply NoDelete_nil]. }
  destruct (isValidVersion_Ok _ _ Ev) as (version & -> & ->). cbn [Js.showOpt].
  rewrite Hstaging. revert s.
  refine (delta_conseq _ _ _ _ _ _ _ _).
  - eapply delta_bind; [apply branchExistsLocal_quiet | intros ?].
    eapply delta_bind; [apply exitIf_quiet | intros ?].
    eapply delta_bind; [apply checkoutToMain_delta | intros ?].
    eapply delta_bind; [apply mergeBranch_delta | intros ?].
    eapply delta_bind; [apply addTag_delta | intros ?].
    eapply delta_bind; [apply checkoutToDevelop_delta | intros ?].
    eapply delta_bind; [apply mergeBranch_delta | intros ?].
    eapply delta_bind;
      [eapply delta_bind;
         [apply checkoutToStaging_delta | intros ?; apply mergeBranch_delta]
      | intros ?].
    eapply delta_bind; [apply deleteBranch_delta | intros ?].
    apply runCommands_delta.
  - cbv beta. intros cs H. unpack. build_queue version.
  - cbv beta. intros cs H.
    repeat match goal with
           | K : _ \/ _ |- _ => destruct K
           | K : exists _, _ |- _ => destruct K
           | K : _ /\ _ |- _ => destruct K
           | K : nothing _ |- _ => unfold nothing in K
           end;
      subst.
    all: try (left;
              repeat first
                [ assumption
                | apply NoDelete_nil
                | apply NoDelete_tag
                | eapply NoDelete_optCheckout; eassumption
                | eapply NoDelete_mergeAdds; eassumption
                | apply NoDelete_app ]; fail).
    right. unpack. build_queue version.
Qed.

(** C5. With a staging branch, the queue that [finishRelease] builds is, in
    this order: the merge into the main branch, the tag of the version, the
    merge into the develop branch, the merge into the staging branch, and
    only then the deletion of the release branch.  This holds of every run
    that returns, and of every run whose queue holds a deletion at all. *)
Theorem finishRelease_order (words : list string) (w : World) :
  useStaging config = true ->
  let run := finishRelease exec config words (fresh w) in
  fst run = Ok tt \/ (exists branch, In (deleteCmd branch) (commands (snd run))) ->
  exists version staging,
    words = [version] /\ stagingBranch config = Some staging /\
    ReleaseQueue config version staging (commands (snd run)).
Proof.
  intros Hstaging run H. subst run.
  pose proof (finishRelease_delta words Hstaging (fresh w)) as D.
  destruct (finishRelease exec config words (fresh w)) as [[u | text] s'];
    cbn [fst snd commands fresh] in *.
  - destruct D as (cs & E & Hq). cbn in E. now rewrite E.
  - destruct D as (cs & E & [Hno | Hq]); cbn in E; rewrite E; [| exact Hq].
    destruct H as [H | (branch & Hin)]; [discriminate H |].
    rewrite E in Hin. now apply Hno in Hin.
Qed.

End Queues.

(** ** Operations on a repository that queries leave unchanged *)

Section ReadOnly.
Context {World : Type}.
Variable exec : string -> World -> ShellResult * World.
Variable config : Config.
Implicit Types (s : State World).

Lemma bind_Ok {A B} (m : M World A) (k : A -> M World B) s (a : A) s' :
  m s = (Ok a, s') -> bind m k s = k a s'.
Proof. unfold bind. now intros ->. Qed.

Lemma bind_Exit {A B} (m : M World A) (k : A -> M World B) s (text : string) s' :
  m s = (Exit text, s') -> bind m k s = (Exit text, s').
Proof. unfold bind. now intros ->. Qed.

Lemma bind_assoc {A B C} (m : M World A) (k1 : A -> M World B)
    (k2 : B -> M World C) s :
  bind (bind m k1) k2 s = bind m (fun a => bind (k1 a) k2) s.
Proof. unfold bind. now destruct (m s) as [[a | text] s']. Qed.

Lemma bind_ret {A B} (a : A) (k : A -> M World B) s : bind (ret a) k s = k a s.
Proof. reflexivity. Qed.

Lemma bind_exitIf_false {B} (message : string) (k : unit -> M World B) s :
  bind (exitIf false message) k s = k tt s.
Proof. reflexivity. Qed.

Lemma bind_exitIf_true {B} (message : string) (k : unit -> M World B) s :
  bind (exitIf true message) k s = (Exit (errorMark ++ message), s).
Proof. reflexivity. Qed.

Lemma shellExec_query s (c : string) :
  ReadOnly exec (world s) -> isQuery c = true ->
  shellExec exec c s = (Ok (fst (exec c (world s))), asked exec s c).
Proof.
  intros Hro Hq. unfold shellExec, asked. specialize (Hro c Hq).
  destruct (exec c (world s)) as [r w]. cbn in *. now subst.
Qed.

Lemma getCurrentBranchName_query s :
  ReadOnly exec (world s) ->
  getCurrentBranchName exec s =
  (Ok (currentBranch exec (world s)), asked exec s currentQuery).
Proof.
  intros Hro. unfold getCurrentBranchName.
  now rewrite (bind_Ok _ _ _ _ _ (shellExec_query s currentQuery Hro eq_refl)).
Qed.

Lemma branchExistsLocal_query s (branch : string) :
  ReadOnly exec (world s) ->
  branchExistsLocal exec branch s =
  (Ok (existsLocal exec (world s) branch), asked exec s (verifyQuery branch)).
Proof.
  intros Hro. unfold branchExistsLocal.
  now rewrite (bind_Ok _ _ _ _ _ (shellExec_query s (verifyQuery branch) Hro eq_refl)).
Qed.

Lemma branchesMatch_query s (b1 b2 : string) :
  ReadOnly exec (world s) ->
  branchesMatch exec b1 b2 s =
  (Ok (String.eqb (hashOf exec (world s) b1) (hashOf exec (world s) b2)),
   asked exec (asked exec s (hashQuery b1)) (hashQuery b2)).
Proof.
  intros Hro. unfold branchesMatch.
  rewrite (bind_Ok _ _ _ _ _ (shellExec_query s (hashQuery b1) Hro eq_refl)).
  now rewrite (bind_Ok _ _ _ _ _
                 (shellExec_query (asked exec s (hashQuery b1)) (hashQuery b2) Hro eq_refl)).
Qed.

Lemma checkWorkingTreeClean_query s :
  ReadOnly exec (world s) ->
  checkWorkingTreeClean exec s =
  (if treeDirty exec (world s)
   then Exit (errorMark ++ "Uncommitted changes exist. Please commit or stash your changes before switching branches.")
   else Ok true,
   asked exec s statusQuery).
Proof.
  intros Hro. unfold checkWorkingTreeClean.
  rewrite (bind_Ok _ _ _ _ _ (shellExec_query s statusQuery Hro eq_refl)).
  unfold treeDirty, exitIf, bind, lift, ret, exitWithError, exitWithMessage.
  now destruct (negb _).
Qed.

(** C10. When the branch asked for is the current branch, [checkoutBranch]
    returns at once: the queue is unchanged and the only thing executed is
    the query of the current branch, so neither the existence of the branch
    nor the state of the working tree is looked at.  The same holds of the
    [switch] command and of the checkout of a base branch one is on. *)
Theorem checkoutBranch_on_current (branch : string) s :
  currentBranch exec (world s) = branch ->
  let after :=
    {| commands := commands s;
       world := snd (exec currentQuery (world s));
       history := (history s ++
                   [Executed currentQuery (fst (exec currentQuery (world s)))])%list |} in
  checkoutBranch exec branch s = (Ok tt, after) /\
  switch exec branch s = (Ok tt, after) /\
  (Js.truthy branch = true -> branch = developBranch config ->
   checkoutToDevelop exec config s = (Ok tt, after)) /\
  (Js.truthy branch = true -> branch = mainBranch config ->
   checkoutToMain exec config s = (Ok tt, after)).
Proof.
  intros Hcur after. subst after. unfold currentBranch in Hcur.
  assert (Hco : checkoutBranch exec branch s =
                (Ok tt, {| commands := commands s;
                           world := snd (exec currentQuery (world s));
                           history := (history s ++
                             [Executed currentQuery
                                (fst (exec currentQuery (world s)))])%list |})).
  { unfold checkoutBranch, getCurrentBranchName, bind, shellExec, ret.
    fold currentQuery. destruct (exec currentQuery (world s)) as [r w].
    cbn in *. rewrite Hcur, String.eqb_refl. reflexivity. }
  split; [exact Hco |]. split; [exact Hco |]. split.
  - intros Ht ->. unfold checkoutToDevelop, getCurrentBranchName, exitIf.
    rewrite Ht. cbn [negb]. unfold bind, shellExec, ret. fold currentQuery.
    destruct (exec currentQuery (world s)) as [r w].
    cbn in *. rewrite Hcur, String.eqb_refl. reflexivity.
  - intros Ht ->. unfold checkoutToMain, getCurrentBranchName, exitIf.
    rewrite Ht. cbn [negb]. unfold bind, shellExec, ret. fold currentQuery.
    destruct (exec currentQuery (world s)) as [r w].
    cbn in *. rewrite Hcur, String.eqb_refl. reflexivity.
Qed.

(** C3, as the code has it.  On a repository that queries leave unchanged:
    on the current branch [switch] returns without any check; on another
    branch it fails if the branch does not exist locally, fails if it exists
    and the working tree is dirty, and does not fail otherwise.  Nothing is
    put in the queue by a run that fails or that finds the branch current. *)
Theorem switch_checks (branch : string) s :
  ReadOnly exec (world s) ->
  let run := switch exec branch s in
  if String.eqb (currentBranch exec (world s)) branch then
    fst run = Ok tt /\ commands (snd run) = commands s
  else if negb (existsLocal exec (world s) branch) then
    fst run = Exit (errorMark ++ branch ++ " does not exist") /\
    commands (snd run) = commands s
  else if treeDirty exec (world s) then
    fst run = Exit (errorMark ++ "Uncommitted changes exist. Please commit or stash your changes before switching branches.") /\
    commands (snd run) = commands s
  else
    fst run = Ok tt.
Proof.
  intros Hro run. subst run. unfold switch, checkoutBranch.
  rewrite (bind_Ok _ _ _ _ _ (getCurrentBranchName_query s Hro)).
  destruct (String.eqb (currentBranch exec (world s)) branch); [now split |].
  rewrite (bind_Ok _ _ _ _ _ (branchExistsLocal_query (asked exec s currentQuery) branch Hro)).
  cbn [asked world].
  destruct (existsLocal exec (world s) branch); cbn [negb].
  2: { now rewrite bind_exitIf_true. }
  rewrite bind_exitIf_false.
  pose proof (checkWorkingTreeClean_query
                (asked exec (asked exec s currentQuery) (verifyQuery branch)) Hro) as Hc.
  cbn [asked world] in Hc.
  destruct (treeDirty exec (world s)).
  - now rewrite (bind_Exit _ _ _ _ _ Hc).
  - now rewrite (bind_Ok _ _ _ _ _ Hc).
Qed.

Lemma bind_lift_Ok {A B} (a : A) (k : A -> M World B) s :
  bind (lift (Ok a)) k s = k a s.
Proof. reflexivity. Qed.

Ltac no_commits Hro Hv Hex Hhash :=
  unfold branchNameOf, prefixOf, baseBranch in Hex, Hhash |- *;
  rewrite Hv in Hex, Hhash |- *;
  rewrite bind_lift_Ok;
  match goal with |- context [bind (branchExistsLocal _ _) _ ?s] =>
    rewrite (bind_Ok _ _ _ _ _ (branchExistsLocal_query s _ Hro)) end;
  cbn [fresh world asked]; rewrite Hex; cbn [negb];
  rewrite bind_exitIf_false;
  match goal with |- context [bind (branchesMatch _ _ _) _ ?s] =>
    rewrite (bind_Ok _ _ _ _ _ (branchesMatch_query s _ _ Hro)) end;
  cbn [fresh world asked]; rewrite Hhash, String.eqb_refl;
  rewrite bind_exitIf_true;
  cbn [fst snd commands world history asked fresh];
  split; [reflexivity |]; split; [reflexivity |]; split; [reflexivity |];
  repeat constructor.

(** X22.  On a repository that queries leave unchanged: for a feature, a
    bugfix or a hotfix, finishing an existing branch whose commit is the
    commit of its base branch exits with the message that there are no
    commits yet; nothing is put in the queue and only queries are
    executed. *)
Theorem finish_without_commits (kind : Kind) (words : list string) (w : World) :
  kind <> Release ->
  ReadOnly exec w ->
  (exists v, isValidBranchName (Tokens words) = Ok v) ->
  existsLocal exec w (branchNameOf config kind words) = true ->
  hashOf exec w (branchNameOf config kind words) =
    hashOf exec w (baseBranch config kind) ->
  let run := finish exec config kind words (fresh w) in
  fst run = Exit (errorMark ++ "No commits yet on " ++ branchNameOf config kind words) /\
  Untouched w (snd run).
Proof.
  intros Hkind Hro (v & Hv) Hex Hhash run. subst run.
  destruct kind; [| contradiction | |]; cbn [finish].
  - unfold finishFeature. no_commits Hro Hv Hex Hhash.
  - unfold finishBugfix. no_commits Hro Hv Hex Hhash.
  - unfold finishHotfix. no_commits Hro Hv Hex Hhash.
Qed.

(** *** Operations that stop before queueing anything *)

Lemma triple_false {A} (m : M World A) Q E : triple (fun _ => False) m Q E.
Proof. intros s []. Qed.

Lemma triple_assume {A} (m : M World A) (P : State World -> Prop) (fact : Prop) Q E :
  (fact -> triple P m Q E) -> triple (fun s => P s /\ fact) m Q E.
Proof. intros H s [Hs Hf]. now apply H. Qed.

Section Untouched.
Variable w : World.
Hypothesis Hro : ReadOnly exec w.

Lemma Untouched_asked s (c : string) :
  Untouched w s -> isQuery c = true -> Untouched w (asked exec s c).
Proof.
  intros (Hw & Hc & Hh) Hq. split; [exact Hw |]. split; [exact Hc |].
  cbn [asked history]. apply Forall_app. split; [exact Hh |].
  constructor; [exact Hq | constructor].
Qed.

Lemma shellExec_untouched (c : string) :
  isQuery c = true ->
  triple (Untouched w) (shellExec exec c)
    (fun r s => Untouched w s /\ r = fst (exec c w)) (fun _ => Untouched w).
Proof.
  intros Hq s Hs. pose proof Hs as (Hw & _).
  assert (Hro' : ReadOnly exec (world s)) by now rewrite Hw.
  rewrite (shellExec_query s c Hro' Hq). rewrite Hw.
  split; [now apply Untouched_asked | reflexivity].
Qed.

Lemma ret_untouched {A} (a : A) :
  triple (Untouched w) (ret a) (fun _ => Untouched w) (fun _ => Untouched w).
Proof. apply triple_ret. auto. Qed.

Lemma exitIf_untouched (cond : bool) (message : string) :
  triple (Untouched w) (exitIf cond message)
    (fun _ => Untouched w) (fun _ => Untouched w).
Proof. apply triple_exitIf; auto. Qed.

Lemma lift_untouched {A} (r : Res A) :
  triple (Untouched w) (lift r) (fun _ => Untouched w) (fun _ => Untouched w).
Proof. apply triple_lift. intros s Hs. now destruct r. Qed.

Lemma getCurrentBranchName_untouched :
  triple (Untouched w) (getCurrentBranchName exec)
    (fun cur s => Untouched w s /\ cur = currentBranch exec w) (fun _ => Untouched w).
Proof.
  unfold getCurrentBranchName.
  eapply triple_bind; [apply (shellExec_untouched currentQuery eq_refl) | intros r].
  apply triple_ret. intros s [Hs ->]. now split.
Qed.

Lemma branchExistsLocal_untouched (branch : string) :
  triple (Untouched w) (branchExistsLocal exec branch)
    (fun _ => Untouched w) (fun _ => Untouched w).
Proof.
  unfold branchExistsLocal.
  eapply triple_bind;
    [apply (shellExec_untouched ("git rev-parse --verify " ++ branch) eq_refl) | intros r].
  apply triple_ret. now intros s [Hs _].
Qed.

Hypothesis Hdirty : treeDirty exec w = true.

Lemma checkWorkingTreeClean_dirty :
  triple (Untouched w) (checkWorkingTreeClean exec)
    (fun _ _ => False) (fun _ => Untouched w).
Proof.
  unfold checkWorkingTreeClean.
  eapply triple_bind; [apply (shellExec_untouched statusQuery eq_refl) | intros r].
  apply triple_assume. intros ->.
  eapply triple_bind; [| intros ?; apply triple_false].
  apply triple_exitIf; [| auto].
  intros s _ H. unfold treeDirty in Hdirty. congruence.
Qed.

Lemma checkoutBranch_dirty (branch : string) :
  currentBranch exec w <> branch ->
  triple (Untouched w) (checkoutBranch exec branch)
    (fun _ _ => False) (fun _ => Untouched w).
Proof.
  intros Hcur. unfold checkoutBranch.
  eapply triple_bind; [apply getCurrentBranchName_untouched | intros cur].
  apply triple_assume. intros ->.
  apply String.eqb_neq in Hcur. rewrite Hcur.
  eapply triple_bind; [apply branchExistsLocal_untouched | intros found].
  eapply triple_bind; [apply exitIf_untouched | intros ?].
  eapply triple_bind; [apply checkWorkingTreeClean_dirty | intros ?].
  apply triple_false.
Qed.

Lemma checkoutToBase_dirty (kind : Kind) :
  currentBranch exec w <> baseBranch config kind ->
  triple (Untouched w)
    (match kind with
     | Hotfix => checkoutToMain exec config
     | Feature | Release | Bugfix => checkoutToDevelop exec config
     end)
    (fun _ _ => False) (fun _ => Untouched w).
Proof.
  intros Hcur.
  assert (Hne : String.eqb (baseBranch config kind) (currentBranch exec w) = false).
  { apply String.eqb_neq. congruence. }
  destruct kind; cbn [baseBranch] in *; unfold checkoutToDevelop, checkoutToMain.
  all: eapply triple_bind; [apply exitIf_untouched | intros ?].
  all: eapply triple_bind; [apply getCurrentBranchName_untouched | intros cur].
  all: apply triple_assume; intros ->; rewrite Hne.
  all: now apply checkoutBranch_dirty.
Qed.

End Untouched.

(** Runs the next query of an operation on a repository that queries leave
    unchanged. *)
Ltac ask Hro :=
  cbv beta; rewrite ?bind_assoc;
  match goal with
  | |- context [bind (getCurrentBranchName _) _ ?s] =>
      rewrite (bind_Ok _ _ _ _ _ (getCurrentBranchName_query s Hro))
  | |- context [bind (branchExistsLocal _ ?b) _ ?s] =>
      rewrite (bind_Ok _ _ _ _ _ (branchExistsLocal_query s b Hro))
  end;
  cbn [asked world fresh].

Ltac dirty_start Hro Hv Hnew Htruthy Hcur Hcur' Hbase Hdirty :=
  unfold checkoutToDevelop, checkoutToMain, checkoutBranch;
  unfold branchNameOf, prefixOf, baseBranch in *;
  rewrite Hv in Hnew |- *; rewrite bind_lift_Ok;
  ask Hro; rewrite Hnew, bind_exitIf_false;
  cbv beta; rewrite !bind_assoc, Htruthy; cbn [negb]; rewrite bind_exitIf_false;
  ask Hro; rewrite Hcur';
  ask Hro; rewrite Hcur;
  ask Hro; rewrite Hbase; cbn [negb];
  cbv beta; rewrite ?bind_assoc; rewrite bind_exitIf_false;
  cbv beta; rewrite ?bind_assoc;
  match goal with
  | |- context [bind (checkWorkingTreeClean _) _ ?s] =>
      let H := fresh in
      pose proof (checkWorkingTreeClean_query s Hro) as H;
      cbn [asked world fresh] in H; rewrite Hdirty in H;
      rewrite (bind_Exit _ _ _ _ _ H)
  end;
  reflexivity.

(** C8, as the code has it.  On a repository that queries leave unchanged:
    when the working tree is dirty and the current branch is not the base
    branch of the kind, every start operation exits before anything is put
    in the queue; only queries have been executed.  When moreover the words
    are accepted, the new branch does not exist and the base branch does,
    the exit is the one of the working-tree check. *)
Theorem start_dirty_exits (kind : Kind) (words : list string) (w : World) :
  ReadOnly exec w ->
  treeDirty exec w = true ->
  currentBranch exec w <> baseBranch config kind ->
  let run := start exec config kind words (fresh w) in
  (exists text, fst run = Exit text) /\ Untouched w (snd run) /\
  (accepted kind words ->
   existsLocal exec w (branchNameOf config kind words) = false ->
   Js.truthy (baseBranch config kind) = true ->
   existsLocal exec w (baseBranch config kind) = true ->
   fst run = Exit dirtyMessage).
Proof.
  intros Hro Hdirty Hcur run. subst run.
  assert (H0 : Untouched w (fresh w)) by (repeat split; constructor).
  assert (T : triple (Untouched w) (start exec config kind words)
                (fun _ _ => False) (fun _ => Untouched w)).
  { pose proof (checkoutToBase_dirty w Hro Hdirty kind Hcur) as Hbase.
    destruct kind; cbn [start];
      unfold startFeature, startRelease, startBugfix, startHotfix.
    all: eapply triple_bind; [apply lift_untouched | intros ?].
    all: eapply triple_bind; [now apply branchExistsLocal_untouched | intros ?].
    all: eapply triple_bind; [apply exitIf_untouched | intros ?].
    all: eapply triple_bind; [exact Hbase | intros ?].
    all: apply triple_false. }
  specialize (T (fresh w) H0).
  split; [| split].
  - destruct (start exec config kind words (fresh w)) as [[u | text] s'];
      cbn [fst]; [contradiction | now exists text].
  - destruct (start exec config kind words (fresh w)) as [[u | text] s'];
      cbn [snd]; [contradiction | exact T].
  - clear T H0. intros Hv Hnew Htruthy Hbase.
    assert (Hcur' : String.eqb (baseBranch config kind) (currentBranch exec w) = false).
    { apply String.eqb_neq. congruence. }
    apply String.eqb_neq in Hcur.
    destruct kind; cbn [accepted] in Hv; destruct Hv as (v & Hv); cbn [start];
      unfold startFeature, startRelease, startBugfix, startHotfix.
    all: dirty_start Hro Hv Hnew Htruthy Hcur Hcur' Hbase Hdirty.
Qed.

End ReadOnly.

(** ** The engine at work on the sample repositories *)

Import Samples.

Lemma Repo_ReadOnly (r : Repo.t) : ReadOnly Repo.git r.
Proof.
  intros command Hq. unfold Repo.git. now rewrite Hq.
Qed.

Ltac pick := repeat first [left; reflexivity | right].

(** C1 fails on the code.  [feature:start login] passes the validation, which
    returns the flag [true] and not the name, and the branch that is created
    is [feature/true]. *)
Theorem feature_start_login_creates_feature_true :
  isValidBranchName (Tokens ["login"]) = Ok true /\
  fst (start Repo.git defaultConfig Feature ["login"] (fresh onDevelop)) = Ok tt /\
  commands (snd (start Repo.git defaultConfig Feature ["login"] (fresh onDevelop))) =
    ["git checkout -b feature/true develop"] /\
  Repo.head (world (snd (start Repo.git defaultConfig Feature ["login"]
                           (fresh onDevelop)))) = "feature/true".
Proof. vm_compute. repeat split. Qed.

(** Whatever the accepted name, the three kinds of branch that take a name
    work on the branch [<prefix>true]. *)
Lemma branchNameOf_accepted (config : Config) (kind : Kind) (word : string) :
  kind <> Release -> nameChars word = true ->
  branchNameOf config kind [word] = prefixOf config kind ++ "true".
Proof.
  intros Hk Hw. unfold branchNameOf.
  rewrite (isValidBranchName_accepts word Hw).
  destruct kind; [reflexivity | contradiction | reflexivity | reflexivity].
Qed.

(** C2 fails on the code.  A release branch that exists and whose commit is
    the commit of its base branch is finished like any other: the operation
    returns, and the merges of the branch are in the queue that it has run.
    [finishRelease] lacks the comparison that the three other finish
    methods make. *)
Theorem finish_release_without_commits :
  existsLocal Repo.git releaseWithoutCommit "release/1.0.0" = true /\
  hashOf Repo.git releaseWithoutCommit "release/1.0.0" =
    hashOf Repo.git releaseWithoutCommit (baseBranch defaultConfig Release) /\
  fst (finish Repo.git defaultConfig Release ["1.0.0"] (fresh releaseWithoutCommit)) =
    Ok tt /\
  In (mergeCmd "release/1.0.0")
     (commands (snd (finish Repo.git defaultConfig Release ["1.0.0"]
                       (fresh releaseWithoutCommit)))).
Proof. vm_compute. repeat split. pick. Qed.

Lemma finish_without_commits_witness :
  fst (finish Repo.git defaultConfig Feature ["login"] (fresh featureWithoutCommit)) =
    Exit (errorMark ++ "No commits yet on " ++
          branchNameOf defaultConfig Feature ["login"]) /\
  Untouched featureWithoutCommit
    (snd (finish Repo.git defaultConfig Feature ["login"] (fresh featureWithoutCommit))).
Proof.
  apply (finish_without_commits Repo.git defaultConfig Feature ["login"]
           featureWithoutCommit).
  - discriminate.
  - apply Repo_ReadOnly.
  - exists true. reflexivity.
  - reflexivity.
  - reflexivity.
Defined.

(** C3 fails on the code: with a dirty working tree, switching to the
    branch one is on does not fail. *)
Lemma switch_dirty_on_current :
  treeDirty Repo.git dirtyOnDevelop = true /\
  fst (switch Repo.git "develop" (fresh dirtyOnDevelop)) = Ok tt.
Proof. vm_compute. split; reflexivity. Qed.

(** The [switch] command leaves its queue unflushed: the checkout and the
    pull are in the queue, and the repository is still on the old branch. *)
Lemma switch_leaves_queue :
  fst (switch Repo.git "main" (fresh onDevelop)) = Ok tt /\
  commands (snd (switch Repo.git "main" (fresh onDevelop))) =
    [checkoutCmd "main"; pullCmd] /\
  Repo.head (world (snd (switch Repo.git "main" (fresh onDevelop)))) = "develop" /\
  Forall (fun e => planningEvent e = true)
         (history (snd (switch Repo.git "main" (fresh onDevelop)))).
Proof. vm_compute. repeat split; repeat constructor. Qed.

Lemma switch_checks_witness :
  fst (switch Repo.git "main" (fresh onDevelop)) = Ok tt.
Proof.
  apply (switch_checks Repo.git "main" (fresh onDevelop)).
  apply Repo_ReadOnly.
Defined.

(** C4 fails on the code.  Finishing [feature/true] from that branch merges
    it into [develop], and the push that follows the merge is a push of
    [feature/true], the branch that was current when the queue was built;
    [develop] is never pushed. *)
Theorem finish_feature_pushes_current_branch :
  fst (finish Repo.git defaultConfig Feature ["login"] (fresh featureWithCommit)) =
    Ok tt /\
  commands (snd (finish Repo.git defaultConfig Feature ["login"]
                   (fresh featureWithCommit))) =
    ["git checkout develop"; "git pull"; "git checkout develop";
     "git merge --no-ff feature/true"; "git push origin feature/true";
     "git branch -d feature/true"; "git push origin --delete feature/true"] /\
  ~ In (pushCmd "develop")
       (commands (snd (finish Repo.git defaultConfig Feature ["login"]
                         (fresh featureWithCommit)))).
Proof.
  vm_compute. repeat split.
  intros H. repeat (destruct H as [H | H]; [discriminate H |]). exact H.
Qed.

(** [pushBranch] queues the push of whatever the repository names as the
    current branch at that moment. *)
Lemma pushBranch_pushes_current {World : Type}
    (exec : string -> World -> ShellResult * World) (s : State World) :
  commands (snd (pushBranch exec s)) =
    (commands s ++ [pushCmd (currentBranch exec (world s))])%list.
Proof.
  unfold pushBranch, getCurrentBranchName, bind, shellExec, ret, addCommand,
    currentBranch.
  fold currentQuery. now destruct (exec currentQuery (world s)).
Qed.

Lemma finishRelease_order_witness :
  exists version staging,
    ["1.0.0"] = [version] /\ stagingBranch withStaging = Some staging /\
    ReleaseQueue withStaging version staging
      (commands (snd (finishRelease Repo.git withStaging ["1.0.0"]
                        (fresh releaseWithoutCommit)))).
Proof.
  apply (finishRelease_order Repo.git withStaging ["1.0.0"] releaseWithoutCommit).
  - reflexivity.
  - left. vm_compute. reflexivity.
Defined.

Lemma finish_stops_on_conflict_witness :
  fst (finish Repo.git defaultConfig Feature ["login"] (fresh featureInConflict)) =
    Exit conflictMessage /\
  (exists pre,
     history (snd (finish Repo.git defaultConfig Feature ["login"]
                     (fresh featureInConflict))) =
     (pre ++ [Executed conflictQuery (Repo.done (Repo.line "src/app.js"))])%list).
Proof.
  pose proof (finish_stops_on_conflict Repo.git defaultConfig Feature ["login"]
                featureInConflict (Repo.done (Repo.line "src/app.js"))) as H.
  assert (Hin : In (Executed conflictQuery (Repo.done (Repo.line "src/app.js")))
                   (history (snd (finish Repo.git defaultConfig Feature ["login"]
                                    (fresh featureInConflict)))))
    by (vm_compute; pick).
  destruct (H Hin eq_refl) as (H1 & H2 & _).
  split; [exact H1 | exact H2].
Defined.

Lemma conflict_check_before_flush_witness :
  (exists res post',
     skipn 11 (history (snd (finish Repo.git defaultConfig Feature ["login"]
                               (fresh featureWithCommit)))) =
     Executed conflictQuery res :: post') /\
  (exists pre' target source,
     firstn 11 (history (snd (finish Repo.git defaultConfig Feature ["login"]
                                (fresh featureWithCommit)))) =
     (pre' ++ [Enqueued (checkoutCmd target); Enqueued (mergeCmd source)])%list) /\
  (forall c r,
     In (Executed c r)
        (firstn 11 (history (snd (finish Repo.git defaultConfig Feature ["login"]
                                    (fresh featureWithCommit))))) ->
     isQuery c = true).
Proof.
  destruct (conflict_check_before_flush Repo.git defaultConfig Feature ["login"]
              featureWithCommit) as [Hm Hc].
  split.
  - apply (Hm (firstn 10 (history (snd (finish Repo.git defaultConfig Feature ["login"]
                                          (fresh featureWithCommit)))))
              "feature/true").
    vm_compute. reflexivity.
  - assert (E : history (snd (finish Repo.git defaultConfig Feature ["login"]
                                (fresh featureWithCommit))) =
                (firstn 11 (history (snd (finish Repo.git defaultConfig Feature ["login"]
                                            (fresh featureWithCommit)))) ++
                 Executed conflictQuery (Repo.done EmptyString) ::
                 skipn 12 (history (snd (finish Repo.git defaultConfig Feature ["login"]
                                           (fresh featureWithCommit)))))%list)
      by (vm_compute; reflexivity).
    destruct (Hc _ _ _ E) as (H1 & H2 & _).
    split; [exact H1 | exact H2].
Defined.

(** C8 fails on the code: on the base branch, a start operation does not
    look at the working tree, and the new branch is created over the
    uncommitted changes. *)
Lemma start_dirty_on_base :
  treeDirty Repo.git dirtyOnDevelop = true /\
  currentBranch Repo.git dirtyOnDevelop = baseBranch defaultConfig Feature /\
  fst (start Repo.git defaultConfig Feature ["login"] (fresh dirtyOnDevelop)) = Ok tt /\
  In (Executed (createCmd "feature/true" "develop") (Repo.done EmptyString))
     (history (snd (start Repo.git defaultConfig Feature ["login"]
                      (fresh dirtyOnDevelop)))).
Proof. vm_compute. repeat split. pick. Qed.

Lemma start_dirty_exits_witness :
  fst (start Repo.git defaultConfig Feature ["login"] (fresh dirtyOnMain)) =
    Exit dirtyMessage /\
  Untouched dirtyOnMain
    (snd (start Repo.git defaultConfig Feature ["login"] (fresh dirtyOnMain))).
Proof.
  destruct (start_dirty_exits Repo.git defaultConfig Feature ["login"] dirtyOnMain)
    as (_ & H2 & H3).
  - apply Repo_ReadOnly.
  - reflexivity.
  - discriminate.
  - split; [| exact H2].
    apply H3; [exists true; reflexivity | reflexivity | reflexivity | reflexivity].
Defined.

Lemma checkoutBranch_on_current_witness :
  treeDirty Repo.git dirtyOnDevelop = true /\
  fst (checkoutBranch Repo.git "develop" (fresh dirtyOnDevelop)) = Ok tt /\
  commands (snd (checkoutBranch Repo.git "develop" (fresh dirtyOnDevelop))) = [].
Proof.
  destruct (checkoutBranch_on_current Repo.git defaultConfig "develop"
              (fresh dirtyOnDevelop) eq_refl) as (H & _).
  rewrite H. repeat split.
Defined.

(** * Further properties of the code *)

(** ** The validators, exactly *)

(** X1.  [isValidBranchName] returns [true] exactly on: an array of one word
    made of the characters of the class, a string made of them, and the
    empty array, whose first element reads [undefined]. *)
Theorem isValidBranchName_accepts_exactly (name : NameArg) :
  isValidBranchName name = Ok true <->
  match name with
  | Tokens [] => True
  | Tokens [word] => nameChars word = true
  | Tokens (_ :: _ :: _) => False
  | Plain word => nameChars word = true
  end.
Proof.
  destruct name as [[| word [| w2 rest]] | word].
  - split; [trivial | intros _; vm_compute; reflexivity].
  - split.
    + intros H. destruct (nameChars word) eqn:E; [reflexivity |].
      rewrite (isValidBranchName_rejects word E) in H. discriminate H.
    + apply isValidBranchName_accepts.
  - split; [| contradiction].
    rewrite isValidBranchName_spaces. discriminate.
  - unfold isValidBranchName.
    cbn [isArray elements firstOrSelf andb Js.showOpt].
    rewrite test_invalidChars. destruct (nameChars word); cbn [negb].
    + split; reflexivity.
    + split; discriminate.
Qed.

(** X2.  [validateVersion] accepts exactly the strings [major.minor.patch]
    whose three parts are decimal numerals without a leading zero;
    [undefined] is not one of them. *)
Theorem validateVersion_accepts_exactly (version : option string) :
  validateVersion version = true <-> exists s, version = Some s /\ SemVer s.
Proof.
  destruct version as [s |].
  - rewrite validateVersion_Matches, Matches_versionRegex. split.
    + intros H. now exists s.
    + now intros (s' & [= <-] & H).
  - split; [vm_compute; discriminate | intros (s & H & _); discriminate H].
Qed.

(** ** What counts as a conflict *)

Lemma trimStart_head (s : string) :
  Js.trimStart s = EmptyString \/
  exists c r, Js.trimStart s = String c r /\ Js.isWhiteSpace c = false.
Proof.
  assert (H : forall n s, (String.length s <= n)%nat ->
            Js.trimStart s = EmptyString \/
            exists c r, Js.trimStart s = String c r /\ Js.isWhiteSpace c = false).
  { induction n as [| n IH]; intros t Hlen.
    - destruct t; [now left | cbn in Hlen; lia].
    - destruct t as [| c r]; [now left |].
      cbn [Js.trimStart]. cbn [String.length] in Hlen.
      destruct (Js.isWhiteSpace c) eqn:Ec; [apply IH; lia |].
      destruct r as [| d r2]; [right; now exists c, EmptyString |].
      cbn [String.length] in Hlen.
      destruct (Js.isWhiteSpace2 c d); [apply IH; lia |].
      destruct r2 as [| e r3]; [right; now exists c, (String d EmptyString) |].
      cbn [String.length] in Hlen.
      destruct (Js.isWhiteSpace3 c d e); [apply IH; lia |].
      right. now exists c, (String d (String e r3)). }
  exact (H (String.length s) s (le_n _)).
Qed.

Lemma trim_head (s : string) :
  Js.trim s = EmptyString \/
  exists c r, Js.trim s = String c r /\ Js.isWhiteSpace c = false.
Proof.
  unfold Js.trim. destruct (trimStart_head s) as [-> | (c & r & -> & Hc)].
  - now left.
  - cbn [Js.trimEnd]. destruct (Js.isEmpty (Js.trimStart (String c r))).
    + now left.
    + right. now exists c, (Js.trimEnd r).
Qed.

(** [trim] strips every white space character of ECMAScript from the head of
    a string, whatever follows. *)
Lemma trimStart_white_space (w s : string) :
  In w whiteSpaces -> Js.trimStart (w ++ s) = Js.trimStart s.
Proof.
  unfold whiteSpaces. cbn [map]. intros H.
  repeat (destruct H as [<- | H]; [reflexivity |]). destruct H.
Qed.

(** On a name between white space at both ends [trim] gives the name, and it
    keeps the characters that are not white space. *)
Lemma trim_white_space :
  Js.trim (Js.join EmptyString whiteSpaces ++ "x y" ++ Js.join EmptyString whiteSpaces) =
    "x y" /\
  Forall (fun w => Js.trim w = EmptyString) whiteSpaces /\
  Forall (fun k => Js.trim (k ++ "x" ++ k) = k ++ "x" ++ k) notWhiteSpaces.
Proof. vm_compute. repeat split; repeat constructor. Qed.

Lemma split_head (c : ascii) (r : string) :
  Ascii.eqb c Js.newline = false ->
  exists h t, Js.split Js.newline (String c r) = String c h :: t.
Proof.
  intros Hc. cbn [Js.split]. rewrite Hc.
  destruct (Js.split Js.newline r) as [| h t]; eexists; eexists; reflexivity.
Qed.

(** The conflict query lists at least one path exactly when its output is
    not blank. *)
Lemma conflictsOf_blank (r : ShellResult) :
  (0 <? List.length (conflictsOf r))%nat = negb (Js.isEmpty (Js.trim (stdout r))).
Proof.
  unfold conflictsOf. destruct (trim_head (stdout r)) as [-> | (c & t & -> & Hc)].
  - reflexivity.
  - assert (Hn : Ascii.eqb c Js.newline = false).
    { destruct (Ascii.eqb_spec c Js.newline) as [-> | _]; [discriminate Hc | reflexivity]. }
    destruct (split_head c t Hn) as (h & l & ->). reflexivity.
Qed.

(** X3.  [checkMergeConflicts] exits with the error output of the conflict
    query when there is one; otherwise it answers [true] exactly when the
    output of the query is not blank. *)
Theorem checkMergeConflicts_result {World : Type}
    (exec : string -> World -> ShellResult * World) (s : State World) :
  fst (checkMergeConflicts exec s) =
  if Js.truthy (stderr (fst (exec conflictQuery (world s)))) then
    Exit (errorMark ++ stderr (fst (exec conflictQuery (world s))))
  else
    Ok (negb (Js.isEmpty (Js.trim (stdout (fst (exec conflictQuery (world s))))))).
Proof.
  unfold checkMergeConflicts, bind, shellExec.
  destruct (exec conflictQuery (world s)) as [r w]. cbn [fst].
  unfold exitIf. destruct (Js.truthy (stderr r)); cbn [lift fst]; [reflexivity |].
  unfold ret. rewrite conflictsOf_blank.
  now destruct (negb (Js.isEmpty (Js.trim (stdout r)))).
Qed.

(** ** Planning and flushing *)

Section Flush.
Context {World : Type}.
Variable exec : string -> World -> ShellResult * World.
Variable config : Config.
Implicit Types (s : State World).

Lemma executions_nil (cs : list string) : executions cs [] = [].
Proof. unfold executions. now destruct cs. Qed.

Lemma execAll_cons (c : string) (rest : list string) s :
  execAll exec (c :: rest) s =
  let s1 := {| commands := commands s;
               world := snd (exec c (world s));
               history := (history s ++ [Executed c (fst (exec c (world s)))])%list |} in
  if succeeded (fst (exec c (world s))) then execAll exec rest s1
  else (Exit (failureText (fst (exec c (world s)))), s1).
Proof.
  cbn [execAll]. unfold bind, shellExec, exitIf, nonZero, succeeded, failureText,
    lift, ret, exitWithError, exitWithMessage.
  destruct (exec c (world s)) as [r w]. cbn [fst snd].
  now destruct (code r =? 0)%Z.
Qed.

Lemma execAll_all_or_abort (queue : list string) s :
  commands (snd (execAll exec queue s)) = commands s /\
  exists rs,
    history (snd (execAll exec queue s)) = (history s ++ executions queue rs)%list /\
    (List.length rs <= List.length queue)%nat /\
    match fst (execAll exec queue s) with
    | Ok _ => List.length rs = List.length queue /\
              Forall (fun r => succeeded r = true) rs
    | Exit text => Aborted text rs
    end.
Proof.
  revert s. induction queue as [| c rest IH]; intros s.
  - split; [reflexivity |]. exists []. cbn. rewrite app_nil_r.
    split; [reflexivity | split; [lia | split; [reflexivity | constructor]]].
  - rewrite execAll_cons. cbv zeta.
    destruct (exec c (world s)) as [r w]. cbn [fst snd].
    destruct (succeeded r) eqn:Ec.
    + specialize (IH {| commands := commands s; world := w;
                        history := (history s ++ [Executed c r])%list |}).
      cbn [commands history] in IH. destruct IH as (Hc & rs & Hh & Hl & Hr).
      split; [exact Hc |]. exists (r :: rs). split; [| split].
      * rewrite Hh, <- app_assoc. reflexivity.
      * cbn. lia.
      * destruct (fst (execAll exec rest _)) as [u | text].
        -- destruct Hr as [Hlen Hall]. split; [cbn; now rewrite Hlen |].
           constructor; [exact Ec | exact Hall].
        -- destruct Hr as (ok & bad & -> & Hok & Hbad & Ht).
           exists (r :: ok), bad. repeat split; try assumption.
           constructor; [exact Ec | exact Hok].
    + cbn [fst snd commands history].
      split; [reflexivity |]. exists [r].
      split; [unfold executions; cbn [combine map fst snd]; now rewrite combine_nil |].
      split; [cbn; lia |].
      exists [], r. repeat split; [constructor | exact Ec].
Qed.

(** X4.  [runCommands] never changes the queue.  In debug mode it exits
    without executing anything.  Otherwise it executes the commands of the
    queue in order from the first one and stops at the first that does not
    succeed: it returns when all succeeded, and it exits when one failed,
    with the error output of that command, or its output when the error
    output is empty. *)
Theorem runCommands_all_or_abort s :
  commands (snd (runCommands exec config s)) = commands s /\
  if debug config then runCommands exec config s = (Exit debugText, s)
  else
    exists rs,
      history (snd (runCommands exec config s)) =
        (history s ++ executions (commands s) rs)%list /\
      (List.length rs <= List.length (commands s))%nat /\
      match fst (runCommands exec config s) with
      | Ok _ => List.length rs = List.length (commands s) /\
                Forall (fun r => succeeded r = true) rs
      | Exit text => Aborted text rs
      end.
Proof.
  unfold runCommands. destruct (debug config).
  - split; reflexivity.
  - exact (execAll_all_or_abort (commands s) s).
Qed.

(** *** Methods that keep the instance quiet *)

Lemma Quiet_fresh (w : World) : Quiet (fresh w).
Proof. split; [reflexivity | constructor]. Qed.

Lemma ret_keeps_quiet {A} (a : A) :
  triple Quiet (ret (World := World) a) (fun _ => Quiet) (fun _ => Quiet).
Proof. apply triple_ret. auto. Qed.

Lemma exitIf_keeps_quiet (cond : bool) (message : string) :
  triple Quiet (exitIf (World := World) cond message) (fun _ => Quiet) (fun _ => Quiet).
Proof. apply triple_exitIf; auto. Qed.

Lemma lift_keeps_quiet {A} (r : Res A) :
  triple Quiet (lift (World := World) r) (fun _ => Quiet) (fun _ => Quiet).
Proof. apply triple_lift. intros s Hs. now destruct r. Qed.

Lemma addCommand_keeps_quiet (c : string) :
  isQuery c = false ->
  triple Quiet (addCommand (World := World) c) (fun _ => Quiet) (fun _ => Quiet).
Proof.
  intros Hq. apply triple_addCommand. intros s [Hs Hh]. split.
  - unfold Sync in *. cbn [commands history]. rewrite enqueued_app, Hs. reflexivity.
  - cbn [history]. apply Forall_app. split; [exact Hh |].
    constructor; [cbn; now rewrite Hq | constructor].
Qed.

Lemma shellExec_keeps_quiet (c : string) :
  isQuery c = true ->
  triple Quiet (shellExec exec c) (fun _ => Quiet) (fun _ => Quiet).
Proof.
  intros Hq. apply triple_shellExec. intros s r w [Hs Hh]. split.
  - unfold Sync in *. cbn [commands history]. rewrite enqueued_app, Hs.
    cbn. now rewrite app_nil_r.
  - cbn [history]. apply Forall_app. split; [exact Hh |].
    constructor; [exact Hq | constructor].
Qed.

Lemma bind_keeps_quiet {A B} (m : M World A) (k : A -> M World B) :
  triple Quiet m (fun _ => Quiet) (fun _ => Quiet) ->
  (forall a, triple Quiet (k a) (fun _ => Quiet) (fun _ => Quiet)) ->
  triple Quiet (bind m k) (fun _ => Quiet) (fun _ => Quiet).
Proof. intros Hm Hk. eapply triple_bind; [exact Hm | exact Hk]. Qed.

(** Follows the structure of a method down to its shell calls and its
    additions to the queue. *)
Ltac quiet :=
  lazymatch goal with
  | |- triple _ (bind _ _) _ _ => apply bind_keeps_quiet; [quiet | intros ?; quiet]
  | |- triple _ (ret _) _ _ => apply ret_keeps_quiet
  | |- triple _ (exitIf _ _) _ _ => apply exitIf_keeps_quiet
  | |- triple _ (lift _) _ _ => apply lift_keeps_quiet
  | |- triple _ (addCommand _) _ _ => apply addCommand_keeps_quiet; reflexivity
  | |- triple _ (shellExec _ _) _ _ => apply shellExec_keeps_quiet; reflexivity
  | |- triple _ (if ?b then _ else _) _ _ => destruct b; quiet
  | |- triple _ (match ?o with Some _ => _ | None => _ end) _ _ => destruct o; quiet
  end.

Ltac methods :=
  unfold checkoutToMain, checkoutToDevelop, checkoutToStaging, checkoutBranch,
    mergeBranch, pushBranch, deleteBranch, createBranch, addTag,
    checkMergeConflicts, getCurrentBranchName, branchExistsLocal, branchesMatch,
    checkWorkingTreeClean.

Ltac planning_step :=
  eapply triple_bind;
    [eapply triple_conseq; [methods; quiet | auto | intros ? ? K; exact K | auto] | intros ?].

Lemma Quiet_Ran s (text : string) : Quiet s -> Ran (Exit text) s.
Proof.
  intros [Hs Hh]. exists (history s), []. rewrite executions_nil, app_nil_r.
  split; [reflexivity |]. split; [exact Hs |]. split; [exact Hh |].
  split; [cbn; lia | now left].
Qed.

Lemma runCommands_runs :
  triple Quiet (runCommands exec config)
    (fun u s => Ran (Ok u) s) (fun text s => Ran (Exit text) s).
Proof.
  intros s [Hs Hh]. unfold runCommands. destruct (debug config).
  - apply Quiet_Ran. now split.
  - destruct (execAll_all_or_abort (commands s) s) as (Hc & rs & Hr & Hl & Ho).
    destruct (execAll exec (commands s) s) as [[u | text] s']; cbn [fst snd] in *.
    + exists (history s), rs. rewrite Hc. repeat split; try assumption; apply Ho.
    + exists (history s), rs. rewrite Hc. repeat split; try assumption. now right.
Qed.

Lemma runCommands_debug :
  debug config = true ->
  triple Quiet (runCommands exec config) (fun _ _ => False) (fun _ => Quiet).
Proof.
  intros Hd. unfold runCommands. rewrite Hd. apply triple_lift. auto.
Qed.

Ltac planning_steps :=
  repeat (eapply triple_bind;
            [eapply triple_conseq;
               [methods; quiet | auto | intros ? ? K; exact K
               | first [intros ? ? K; exact K | intros; now apply Quiet_Ran]]
            | intros ?]).

Ltac operations :=
  unfold startFeature, startRelease, startBugfix, startHotfix,
    finishFeature, finishRelease, finishBugfix, finishHotfix.

(** X5.  Every start and every finish operation leaves a history in two
    phases: first it only enqueues commands and asks queries, then it
    executes its queue from the first command on.  When the operation
    returns, every queued command was executed, in queue order, and
    succeeded; when it exits, either nothing of the queue was executed or
    the queue was executed up to the first command that failed. *)
Theorem lifecycle_runs (kind : Kind) (words : list string) (w : World) :
  Ran (fst (start exec config kind words (fresh w)))
      (snd (start exec config kind words (fresh w))) /\
  Ran (fst (finish exec config kind words (fresh w)))
      (snd (finish exec config kind words (fresh w))).
Proof.
  assert (Hs : triple Quiet (start exec config kind words)
                 (fun u s => Ran (Ok u) s) (fun text s => Ran (Exit text) s)).
  { destruct kind; cbn [start]; operations; planning_steps; apply runCommands_runs. }
  assert (Hf : triple Quiet (finish exec config kind words)
                 (fun u s => Ran (Ok u) s) (fun text s => Ran (Exit text) s)).
  { destruct kind; cbn [finish]; operations; planning_steps; apply runCommands_runs. }
  specialize (Hs (fresh w) (Quiet_fresh w)). specialize (Hf (fresh w) (Quiet_fresh w)).
  split.
  - now destruct (start exec config kind words (fresh w)) as [[u | text] s'].
  - now destruct (finish exec config kind words (fresh w)) as [[u | text] s'].
Qed.

Lemma Quiet_asks s (c : string) (r : ShellResult) :
  Quiet s -> In (Executed c r) (history s) -> isQuery c = true.
Proof.
  intros [_ Hh] Hin. rewrite Forall_forall in Hh. now apply Hh in Hin.
Qed.

Lemma Quiet_queue s (c : string) : Quiet s -> In c (commands s) -> isQuery c = false.
Proof.
  intros [Hs Hh] Hin. rewrite Hs in Hin. apply In_enqueued in Hin.
  rewrite Forall_forall in Hh. apply Hh in Hin. cbn in Hin.
  now destruct (isQuery c).
Qed.

(** X6.  In debug mode no start and no finish operation returns: each of
    them exits, and everything it has executed by then is a query, so that
    nothing of its queue has run. *)
Theorem debug_runs_nothing (kind : Kind) (words : list string) (w : World) :
  debug config = true ->
  ((exists text, fst (start exec config kind words (fresh w)) = Exit text) /\
   forall c r,
     In (Executed c r) (history (snd (start exec config kind words (fresh w)))) ->
     isQuery c = true) /\
  ((exists text, fst (finish exec config kind words (fresh w)) = Exit text) /\
   forall c r,
     In (Executed c r) (history (snd (finish exec config kind words (fresh w)))) ->
     isQuery c = true).
Proof.
  intros Hd.
  assert (Hs : triple Quiet (start exec config kind words)
                 (fun _ _ => False) (fun _ => Quiet)).
  { destruct kind; cbn [start]; operations; planning_steps; now apply runCommands_debug. }
  assert (Hf : triple Quiet (finish exec config kind words)
                 (fun _ _ => False) (fun _ => Quiet)).
  { destruct kind; cbn [finish]; operations; planning_steps; now apply runCommands_debug. }
  specialize (Hs (fresh w) (Quiet_fresh w)). specialize (Hf (fresh w) (Quiet_fresh w)).
  split.
  - destruct (start exec config kind words (fresh w)) as [[u | text] s'];
      [contradiction |].
    split; [now exists text | intros c r; now apply Quiet_asks].
  - destruct (finish exec config kind words (fresh w)) as [[u | text] s'];
      [contradiction |].
    split; [now exists text | intros c r; now apply Quiet_asks].
Qed.

(** X7.  The [switch] command executes nothing but queries: what it puts in
    the queue is never executed. *)
Theorem switch_only_asks (branch : string) (w : World) :
  (forall c r,
     In (Executed c r) (history (snd (switch exec branch (fresh w)))) ->
     isQuery c = true) /\
  (forall c r,
     In c (commands (snd (switch exec branch (fresh w)))) ->
     ~ In (Executed c r) (history (snd (switch exec branch (fresh w))))).
Proof.
  assert (H : triple Quiet (switch exec branch) (fun _ => Quiet) (fun _ => Quiet))
    by (unfold switch; methods; quiet).
  specialize (H (fresh w) (Quiet_fresh w)).
  assert (Hq : Quiet (snd (switch exec branch (fresh w))))
    by now destruct (switch exec branch (fresh w)) as [[u | text] s'].
  split.
  - intros c r. now apply Quiet_asks.
  - intros c r Hc He. apply (Quiet_queue _ c Hq) in Hc.
    apply (Quiet_asks _ c r Hq) in He. congruence.
Qed.

Lemma staging_unnamed (k : unit -> M World unit) :
  useStaging config = true ->
  (forall name, stagingBranch config = Some name -> name = EmptyString) ->
  triple Quiet
    (if useStaging config then bind (checkoutToStaging exec config) k else ret tt)
    (fun _ _ => False) (fun _ => Quiet).
Proof.
  intros Hu Hn. rewrite Hu. unfold checkoutToStaging. rewrite Hu. cbn [negb].
  eapply triple_bind; [| intros ?; apply triple_false].
  eapply triple_bind; [apply exitIf_keeps_quiet | intros ?].
  destruct (stagingBranch config) as [name |].
  - rewrite (Hn name eq_refl). cbn [Js.truthy Js.isEmpty negb].
    eapply triple_bind; [| intros ?; apply triple_false].
    apply triple_exitIf; [discriminate | auto].
  - apply triple_lift. auto.
Qed.

(** X8.  With staging switched on and no staging branch in the
    configuration, or an empty one, no finish operation returns: each of
    them exits, and everything it has executed by then is a query. *)
Theorem finish_without_staging_branch (kind : Kind) (words : list string) (w : World) :
  useStaging config = true ->
  (forall name, stagingBranch config = Some name -> name = EmptyString) ->
  (exists text, fst (finish exec config kind words (fresh w)) = Exit text) /\
  forall c r,
    In (Executed c r) (history (snd (finish exec config kind words (fresh w)))) ->
    isQuery c = true.
Proof.
  intros Hu Hn.
  assert (Hf : triple Quiet (finish exec config kind words)
                 (fun _ _ => False) (fun _ => Quiet)).
  { destruct kind; cbn [finish]; operations.
    all: repeat first
           [ eapply triple_bind;
               [now apply staging_unnamed | intros ?; apply triple_false]
           | eapply triple_bind;
               [eapply triple_conseq;
                  [methods; quiet | auto | intros ? ? K; exact K
                  | intros ? ? K; exact K]
               | intros ?] ]. }
  specialize (Hf (fresh w) (Quiet_fresh w)).
  destruct (finish exec config kind words (fresh w)) as [[u | text] s'];
    [contradiction |].
  split; [now exists text | intros c r; now apply Quiet_asks].
Qed.

End Flush.

(** ** The queues of the lifecycle operations *)

Section Shapes.
Context {World : Type}.
Variable exec : string -> World -> ShellResult * World.
Variable config : Config.
Implicit Types (s : State World).

Lemma delta_skip {A B} (m : M World A) (k : A -> M World B) E O :
  delta m nothing E -> (forall a, delta (k a) O any) -> delta (bind m k) O any.
Proof.
  intros Hm Hk. eapply delta_conseq; [exact (delta_bind m k _ _ _ _ Hm Hk) | |].
  - intros cs (c1 & c2 & -> & -> & H). exact H.
  - intros cs _. exact I.
Qed.

Lemma delta_ext {A} (m m' : M World A) O E :
  (forall s, m s = m' s) -> delta m' O E -> delta m O E.
Proof. intros H D s. rewrite H. apply D. Qed.

Lemma delta_any {A} (m : M World A) O E : delta m O E -> delta m O any.
Proof. intros D. eapply delta_conseq; [exact D | auto | intros cs _; exact I]. Qed.

Lemma lift_delta {A} (r : Res A) : delta (lift (World := World) r) nothing nothing.
Proof.
  intros s. unfold lift.
  destruct r; exists (@nil string); (split; [now rewrite app_nil_r | reflexivity]).
Qed.

Ltac run_shell :=
  repeat match goal with
         | |- context [exec ?c ?w] =>
             let r := fresh "r" in
             let w' := fresh "w" in
             destruct (exec c w) as [r w']
         | |- context [if ?b then _ else _] => destruct b
         | _ => progress cbn -[String.append]
         end.

Lemma branchesMatch_delta (b1 b2 : string) :
  delta (branchesMatch exec b1 b2) nothing nothing.
Proof.
  intros s. unfold branchesMatch, bind, shellExec, ret. run_shell.
  exists (@nil string). split; [now rewrite app_nil_r | reflexivity].
Qed.

Lemma createBranch_delta (branch from : string) :
  delta (createBranch exec branch from) (fun cs => cs = [createCmd branch from]) any.
Proof.
  intros s. unfold createBranch, branchExistsLocal, bind, shellExec, ret, exitIf,
    addCommand, lift, exitWithError, exitWithMessage.
  run_shell.
  - exists (@nil string). split; [now rewrite app_nil_r | exact I].
  - now exists [createCmd branch from].
Qed.

Lemma finish_end (branch : string) :
  delta (bind (deleteBranch exec config branch) (fun _ => runCommands exec config))
    (Finishes (pushBranches config) branch []) any.
Proof.
  eapply delta_conseq;
    [exact (delta_bind _ _ _ _ _ _ (deleteBranch_delta exec config branch)
              (fun _ => runCommands_delta exec config)) | |].
  - intros cs (c1 & c2 & -> & -> & ->). exists (@nil string).
    split; [now rewrite app_nil_r | reflexivity].
  - intros cs _. exact I.
Qed.

Lemma finish_merge (co : M World unit) (branch target : string)
    (k : unit -> M World unit) (plan : list Step) E :
  delta co (optCheckout target) E ->
  (forall u, delta (k u) (Finishes (pushBranches config) branch plan) any) ->
  delta (bind co (fun _ => bind (mergeBranch exec config branch target) k))
    (Finishes (pushBranches config) branch (MergeInto target :: plan)) any.
Proof.
  intros Hco Hk.
  eapply delta_conseq;
    [exact (delta_bind _ _ _ _ _ _ Hco
              (fun _ => delta_bind _ _ _ _ _ _
                          (mergeBranch_delta exec config branch target) Hk)) | |].
  - intros cs (c & c2 & -> & Hc & m & c3 & -> & (p & -> & Hp) & steps & -> & Hr).
    exists ((c ++ [checkoutCmd target; mergeCmd branch] ++ p) ++ steps)%list.
    split; [now rewrite <- !app_assoc |].
    exists (c ++ [checkoutCmd target; mergeCmd branch] ++ p)%list, steps.
    split; [reflexivity |]. split; [| exact Hr]. now exists c, p.
  - intros cs _. exact I.
Qed.

Lemma finish_tag (version branch : string) (k : unit -> M World unit)
    (plan : list Step) :
  (forall u, delta (k u) (Finishes (pushBranches config) branch plan) any) ->
  delta (bind (addTag version) k)
    (Finishes (pushBranches config) branch (Tag version :: plan)) any.
Proof.
  intros Hk.
  eapply delta_conseq;
    [exact (delta_bind _ _ _ _ _ _ (addTag_delta version) Hk) | |].
  - intros cs (c1 & c2 & -> & -> & steps & -> & Hr).
    exists (tagCmd version :: steps). split; [reflexivity |]. now exists steps.
  - intros cs _. exact I.
Qed.

Lemma finish_staging (branch : string) (k : unit -> M World unit) :
  (forall u, delta (k u) (Finishes (pushBranches config) branch []) any) ->
  delta
    (bind (if useStaging config
           then bind (checkoutToStaging exec config)
                  (fun _ => mergeBranch exec config branch
                              (Js.showOpt (stagingBranch config)))
           else ret tt) k)
    (Finishes (pushBranches config) branch
       (if useStaging config
        then [MergeInto (Js.showOpt (stagingBranch config))] else []))
    any.
Proof.
  intros Hk. destruct (useStaging config).
  - eapply delta_ext; [intros s; apply bind_assoc |].
    eapply finish_merge; [| exact Hk].
    eapply delta_conseq; [apply checkoutToStaging_delta | | intros cs H; exact H].
    intros cs (staging & -> & H). exact H.
  - eapply delta_ext; [intros s; apply bind_ret |]. apply Hk.
Qed.

Ltac skip_checks :=
  repeat first
    [ eapply delta_skip; [apply branchExistsLocal_delta | intros ?]
    | eapply delta_skip; [apply exitIf_delta | intros ?]
    | eapply delta_skip; [apply branchesMatch_delta | intros ?] ].

Ltac rejected :=
  exists (@nil string); split; [now rewrite app_nil_r | exact I].

Lemma finish_delta (kind : Kind) (words : list string) :
  delta (finish exec config kind words)
    (Finishes (pushBranches config) (branchNameOf config kind words)
       (finishPlan config kind words))
    any.
Proof.
  unfold finishPlan, branchNameOf, prefixOf.
  destruct kind; cbn [finish app]; intros s;
    unfold finishFeature, finishRelease, finishBugfix, finishHotfix;
    unfold bind at 1; unfold lift at 1.
  - destruct (isValidBranchName (Tokens words)) as [v | text]; [| rejected].
    revert s. skip_checks.
    eapply finish_merge; [apply checkoutToDevelop_delta | intros ?].
    apply finish_staging. intros ?. apply finish_end.
  - destruct (isValidVersion words) as [v | text]; [| rejected].
    revert s. skip_checks.
    eapply finish_merge; [apply checkoutToMain_delta | intros ?].
    apply finish_tag. intros ?.
    eapply finish_merge; [apply checkoutToDevelop_delta | intros ?].
    apply finish_staging. intros ?. apply finish_end.
  - destruct (isValidBranchName (Tokens words)) as [v | text]; [| rejected].
    revert s. skip_checks.
    eapply finish_merge; [apply checkoutToDevelop_delta | intros ?].
    apply finish_staging. intros ?. apply finish_end.
  - destruct (isValidBranchName (Tokens words)) as [v | text]; [| rejected].
    revert s. skip_checks.
    eapply finish_merge; [apply checkoutToMain_delta | intros ?].
    eapply finish_merge; [apply checkoutToDevelop_delta | intros ?].
    apply finish_staging. intros ?. apply finish_end.
Qed.

(** X9.  The queue of a finish operation that returns, for every kind and
    every configuration: one merge step per target branch, in the order main
    (release and hotfix), develop, staging (when staging is on), with the
    tag of a release right after its merge into main; then the local
    deletion of the branch and, when pushing is on, its remote deletion; and
    nothing else. *)
Theorem finish_queue (kind : Kind) (words : list string) (w : World) :
  fst (finish exec config kind words (fresh w)) = Ok tt ->
  Finishes (pushBranches config) (branchNameOf config kind words)
    (finishPlan config kind words)
    (commands (snd (finish exec config kind words (fresh w)))).
Proof.
  intros H. pose proof (finish_delta kind words (fresh w)) as D.
  destruct (finish exec config kind words (fresh w)) as [[u | text] s'];
    [| discriminate H].
  destruct D as (cs & E & Hq). cbn [fst snd commands fresh app] in *.
  now rewrite E.
Qed.

Lemma start_delta (kind : Kind) (words : list string) :
  delta (start exec config kind words)
    (fun cs => exists c,
       cs = (c ++ [createCmd (branchNameOf config kind words)
                     (baseBranch config kind)])%list /\
       optCheckout (baseBranch config kind) c)
    any.
Proof.
  unfold branchNameOf, prefixOf, baseBranch.
  assert (Hco : forall (co : M World unit) base branch E,
             delta co (optCheckout base) E ->
             delta (bind co (fun _ => bind (createBranch exec branch base)
                                        (fun _ => runCommands exec config)))
               (fun cs => exists c,
                  cs = (c ++ [createCmd branch base])%list /\ optCheckout base c)
               any).
  { intros co base branch E Hco.
    eapply delta_conseq;
      [exact (delta_bind _ _ _ _ _ _ Hco
                (fun _ => delta_bind _ _ _ _ _ _
                            (createBranch_delta branch base)
                            (fun _ => runCommands_delta exec config))) | |].
    - intros cs (c & c2 & -> & Hc & c3 & c4 & -> & -> & ->).
      exists c. now rewrite app_nil_r.
    - intros cs _. exact I. }
  destruct kind; cbn [start]; intros s;
    unfold startFeature, startRelease, startBugfix, startHotfix;
    unfold bind at 1; unfold lift at 1.
  - destruct (isValidBranchName (Tokens words)) as [v | text]; [| rejected].
    revert s. skip_checks. eapply Hco. apply checkoutToDevelop_delta.
  - destruct (isValidVersion words) as [v | text]; [| rejected].
    revert s. skip_checks. eapply Hco. apply checkoutToDevelop_delta.
  - destruct (isValidBranchName (Tokens words)) as [v | text]; [| rejected].
    revert s. skip_checks. eapply Hco. apply checkoutToDevelop_delta.
  - destruct (isValidBranchName (Tokens words)) as [v | text]; [| rejected].
    revert s. skip_checks. eapply Hco. apply checkoutToMain_delta.
Qed.

(** X10.  The queue of a start operation that returns is the creation of the
    branch from the base branch of its kind, preceded by a checkout and a
    pull of the base branch or by nothing, and holds nothing else. *)
Theorem start_queue (kind : Kind) (words : list string) (w : World) :
  fst (start exec config kind words (fresh w)) = Ok tt ->
  exists c,
    commands (snd (start exec config kind words (fresh w))) =
      (c ++ [createCmd (branchNameOf config kind words) (baseBranch config kind)])%list /\
    optCheckout (baseBranch config kind) c.
Proof.
  intros H. pose proof (start_delta kind words (fresh w)) as D.
  destruct (start exec config kind words (fresh w)) as [[u | text] s'];
    [| discriminate H].
  destruct D as (cs & E & Hq). cbn [fst snd commands fresh app] in *.
  now rewrite E.
Qed.

End Shapes.

(** ** What the operations never put in the queue *)

Section Pushes.
Context {World : Type}.
Variable exec : string -> World -> ShellResult * World.
Variable config : Config.
Implicit Types (s : State World).

Lemma Pushless_fresh (w : World) : Pushless (fresh w).
Proof. constructor. Qed.

Lemma ret_pushless {A} (a : A) :
  triple Pushless (ret (World := World) a) (fun _ => Pushless) (fun _ => Pushless).
Proof. apply triple_ret. auto. Qed.

Lemma exitIf_pushless (cond : bool) (message : string) :
  triple Pushless (exitIf (World := World) cond message)
    (fun _ => Pushless) (fun _ => Pushless).
Proof. apply triple_exitIf; auto. Qed.

Lemma lift_pushless {A} (r : Res A) :
  triple Pushless (lift (World := World) r) (fun _ => Pushless) (fun _ => Pushless).
Proof. apply triple_lift. intros s Hs. now destruct r. Qed.

Lemma addCommand_pushless (c : string) :
  isPush c = false ->
  triple Pushless (addCommand (World := World) c)
    (fun _ => Pushless) (fun _ => Pushless).
Proof.
  intros Hc. apply triple_addCommand. intros s Hs. unfold Pushless in *.
  cbn [commands]. apply Forall_app. split; [exact Hs |].
  constructor; [exact Hc | constructor].
Qed.

Lemma shellExec_pushless (c : string) :
  triple Pushless (shellExec exec c) (fun _ => Pushless) (fun _ => Pushless).
Proof. apply triple_shellExec. intros s r w Hs. exact Hs. Qed.

Lemma runCommands_pushless :
  triple Pushless (runCommands exec config) (fun _ => Pushless) (fun _ => Pushless).
Proof.
  intros s Hs. pose proof (runCommands_delta exec config s) as D.
  destruct (runCommands exec config s) as [[u | text] s'];
    destruct D as (cs & E & ->); rewrite app_nil_r in E;
    unfold Pushless; now rewrite E.
Qed.

Lemma bind_pushless {A B} (m : M World A) (k : A -> M World B) :
  triple Pushless m (fun _ => Pushless) (fun _ => Pushless) ->
  (forall a, triple Pushless (k a) (fun _ => Pushless) (fun _ => Pushless)) ->
  triple Pushless (bind m k) (fun _ => Pushless) (fun _ => Pushless).
Proof. intros Hm Hk. eapply triple_bind; [exact Hm | exact Hk]. Qed.

Ltac pushless :=
  cbv zeta;
  lazymatch goal with
  | |- triple _ (bind _ _) _ _ => apply bind_pushless; [pushless | intros ?; pushless]
  | |- triple _ (ret _) _ _ => apply ret_pushless
  | |- triple _ (exitIf _ _) _ _ => apply exitIf_pushless
  | |- triple _ (lift _) _ _ => apply lift_pushless
  | |- triple _ (addCommand _) _ _ => apply addCommand_pushless; reflexivity
  | |- triple _ (shellExec _ _) _ _ => apply shellExec_pushless
  | |- triple _ (runCommands _ _) _ _ => apply runCommands_pushless
  | |- triple _ (if ?b then _ else _) _ _ => destruct b; pushless
  | |- triple _ (match ?o with Some _ => _ | None => _ end) _ _ => destruct o; pushless
  end.

Ltac unfold_methods :=
  unfold startFeature, startRelease, startBugfix, startHotfix,
    finishFeature, finishRelease, finishBugfix, finishHotfix;
  unfold checkoutToMain, checkoutToDevelop, checkoutToStaging, checkoutBranch,
    mergeBranch, deleteBranch, createBranch, addTag,
    checkMergeConflicts, getCurrentBranchName, branchExistsLocal, branchesMatch,
    checkWorkingTreeClean.

(** X11.  No start operation puts a push in the queue, whatever the
    configuration: the new branch is created locally only. *)
Theorem start_never_pushes (kind : Kind) (words : list string) (w : World)
    (c : string) :
  In c (commands (snd (start exec config kind words (fresh w)))) -> isPush c = false.
Proof.
  assert (H : triple Pushless (start exec config kind words)
                (fun _ => Pushless) (fun _ => Pushless))
    by (destruct kind; cbn [start]; unfold_methods; pushless).
  specialize (H (fresh w) (Pushless_fresh w)).
  assert (Hp : Pushless (snd (start exec config kind words (fresh w))))
    by now destruct (start exec config kind words (fresh w)) as [[u | text] s'].
  unfold Pushless in Hp. rewrite Forall_forall in Hp. apply Hp.
Qed.

(** X12.  With [pushBranches] off, no finish operation puts a command in the
    queue that writes to the remote: neither a push of a branch nor the
    deletion of the remote branch, whether the operation returns or exits. *)
Theorem finish_without_push (kind : Kind) (words : list string) (w : World)
    (c : string) :
  pushBranches config = false ->
  In c (commands (snd (finish exec config kind words (fresh w)))) -> isPush c = false.
Proof.
  intros Hoff.
  assert (H : triple Pushless (finish exec config kind words)
                (fun _ => Pushless) (fun _ => Pushless))
    by (destruct kind; cbn [finish]; unfold_methods; rewrite !Hoff; pushless).
  specialize (H (fresh w) (Pushless_fresh w)).
  assert (Hp : Pushless (snd (finish exec config kind words (fresh w))))
    by now destruct (finish exec config kind words (fresh w)) as [[u | text] s'].
  unfold Pushless in Hp. rewrite Forall_forall in Hp. apply Hp.
Qed.

End Pushes.

(** ** Refusals before anything is queued *)

Section Refusals.
Context {World : Type}.
Variable exec : string -> World -> ShellResult * World.
Variable config : Config.
Implicit Types (s : State World).

Lemma first_query (command : string) (w : World) :
  shellExec exec command (fresh w) =
  (Ok (fst (exec command w)), afterFirst exec command w).
Proof.
  unfold shellExec, afterFirst, fresh. cbn [world commands history].
  now destruct (exec command w).
Qed.

Lemma first_branchExistsLocal (branch : string) (w : World) :
  branchExistsLocal exec branch (fresh w) =
  (Ok (existsLocal exec w branch), afterFirst exec (verifyQuery branch) w).
Proof.
  unfold branchExistsLocal, bind. fold (verifyQuery branch).
  now rewrite first_query.
Qed.

Ltac refuse Hv Hex :=
  unfold branchNameOf, prefixOf in Hex |- *; rewrite Hv in Hex |- *;
  unfold bind at 1; unfold lift at 1; cbv zeta;
  unfold bind at 1; rewrite first_branchExistsLocal, Hex; reflexivity.

(** X13.  Starting a branch that exists already exits with the message that
    the branch already exists, after one shell call, the query for the
    branch; nothing is queued. *)
Theorem start_existing_branch (kind : Kind) (words : list string) (w : World) :
  accepted kind words ->
  existsLocal exec w (branchNameOf config kind words) = true ->
  start exec config kind words (fresh w) =
  (Exit (errorMark ++ branchNameOf config kind words ++ " already exists"),
   afterFirst exec (verifyQuery (branchNameOf config kind words)) w).
Proof.
  intros Hacc Hex.
  destruct kind; cbn [start accepted] in *; destruct Hacc as (v & Hv);
    unfold startFeature, startRelease, startBugfix, startHotfix; refuse Hv Hex.
Qed.

(** X14.  Finishing a branch that does not exist exits with the message that
    the branch does not exist, after one shell call, the query for the
    branch; nothing is queued. *)
Theorem finish_missing_branch (kind : Kind) (words : list string) (w : World) :
  accepted kind words ->
  existsLocal exec w (branchNameOf config kind words) = false ->
  finish exec config kind words (fresh w) =
  (Exit (errorMark ++ branchNameOf config kind words ++ " does not exist"),
   afterFirst exec (verifyQuery (branchNameOf config kind words)) w).
Proof.
  intros Hacc Hex.
  destruct kind; cbn [finish accepted] in *; destruct Hacc as (v & Hv);
    unfold finishFeature, finishRelease, finishBugfix, finishHotfix; refuse Hv Hex.
Qed.

(** X15.  Words that the validation of the kind rejects stop a start and a
    finish operation before any shell call: the operation exits with the
    message of the validation and leaves the instance as it was. *)
Theorem rejected_words (kind : Kind) (words : list string) s :
  ~ accepted kind words ->
  exists text,
    start exec config kind words s = (Exit text, s) /\
    finish exec config kind words s = (Exit text, s).
Proof.
  intros Hno. destruct kind; cbn [start finish accepted] in *;
    unfold startFeature, startRelease, startBugfix, startHotfix,
      finishFeature, finishRelease, finishBugfix, finishHotfix.
  1, 3, 4: destruct (isValidBranchName (Tokens words)) as [v | text] eqn:Ev;
    [exfalso; apply Hno; now exists v | exists text; split; reflexivity].
  destruct (isValidVersion words) as [v | text] eqn:Ev;
    [exfalso; apply Hno; now exists v | exists text; split; reflexivity].
Qed.

End Refusals.

(** ** The validation of the configuration object *)

Lemma andThen_Ok {A B} (r : Res A) (k : A -> Res B) (b : B) :
  andThen r k = Ok b <-> exists a, r = Ok a /\ k a = Ok b.
Proof.
  destruct r as [a | text]; cbn [andThen].
  - split; [intros H; now exists a | intros (a' & [= <-] & H); exact H].
  - split; [discriminate | intros (a' & H & _); discriminate H].
Qed.

Lemma andThen_Exit {A B} (r : Res A) (k : A -> Res B) (text : string) :
  andThen r k = Exit text ->
  r = Exit text \/ exists a, r = Ok a /\ k a = Exit text.
Proof.
  destruct r as [a | text']; cbn [andThen].
  - intros H. right. now exists a.
  - intros [= ->]. now left.
Qed.

Lemma check_Ok (cond : bool) (message : string) (u : unit) :
  check cond message = Ok u <-> cond = false.
Proof.
  unfold check. destruct cond, u; split; try discriminate; reflexivity.
Qed.

Lemma check_Exit (cond : bool) (message text : string) :
  check cond message = Exit text -> cond = true /\ text = errorMark ++ message.
Proof. unfold check. destruct cond; [now intros [= <-] | discriminate]. Qed.

Lemma forEach_Ok {A} (l : list A) (body : A -> Res unit) (u : unit) :
  forEach l body = Ok u <-> forall x, In x l -> body x = Ok tt.
Proof.
  destruct u. induction l as [| x rest IH]; cbn [forEach].
  - split; [intros _ x [] | reflexivity].
  - rewrite andThen_Ok. split.
    + intros ([] & Hx & Hrest) y [<- | Hy]; [exact Hx |]. now apply IH.
    + intros H. exists tt. split; [apply H; now left |].
      apply IH. intros y Hy. apply H. now right.
Qed.

Lemma forEach_Exit {A} (l : list A) (body : A -> Res unit) (text : string) :
  forEach l body = Exit text -> exists x, In x l /\ body x = Exit text.
Proof.
  induction l as [| x rest IH]; cbn [forEach]; [discriminate |].
  intros H. apply andThen_Exit in H. destruct H as [H | (a & _ & H)].
  - exists x. split; [now left | exact H].
  - destruct (IH H) as (y & Hy & Hb). exists y. split; [now right | exact Hb].
Qed.

(** the messages with which the name validation exits *)
Lemma isValidBranchName_Exit (name : NameArg) (text : string) :
  isValidBranchName name = Exit text ->
  (exists words, text = errorMark ++ "Branch name '" ++ words) \/
  (exists rest, text = errorMark ++ "Invalid branch name '" ++ rest).
Proof.
  unfold isValidBranchName.
  destruct (isArray name && (1 <? List.length (elements name))%nat).
  - intros [= <-]. left. eexists. reflexivity.
  - cbv zeta. rewrite negb_involutive.
    destruct (Regex.test invalidChars (Js.showOpt (firstOrSelf name)));
      [| discriminate].
    intros [= <-]. right. eexists. reflexivity.
Qed.

Lemma Named_andThen {B} (v : Value) (k : bool -> Res B) (b : B) :
  andThen (isValidBranchName (nameArg v)) k = Ok b <-> Named v /\ k true = Ok b.
Proof.
  rewrite andThen_Ok. unfold Named. split.
  - intros (a & Ha & Hk). pose proof (isValidBranchName_flag _ _ Ha) as ->.
    now split.
  - intros [Ha Hk]. now exists true.
Qed.

Lemma validateConfig_Valid (config : list (string * Value)) :
  validateConfig config = Ok true <-> Valid config.
Proof.
  unfold validateConfig, Valid.
  rewrite andThen_Ok. split.
  - intros ([] & Hreq & H). rewrite forEach_Ok in Hreq.
    rewrite Named_andThen in H. destruct H as [Hmain H].
    rewrite Named_andThen in H. destruct H as [Hdev H].
    rewrite andThen_Ok in H. destruct H as ([] & Hst & H).
    rewrite andThen_Ok in H. destruct H as ([] & Hpre & H).
    rewrite andThen_Ok in H. destruct H as ([] & Hflag & _).
    rewrite forEach_Ok in Hpre, Hflag.
    split; [| split; [exact Hmain | split; [exact Hdev | split; [| split]]]].
    + intros field Hin. specialize (Hreq field Hin). rewrite check_Ok in Hreq.
      now apply negb_false_iff in Hreq.
    + intros Hon. rewrite Hon in Hst. rewrite Named_andThen in Hst. apply Hst.
    + intros prefix Hin. specialize (Hpre prefix Hin). cbv zeta in Hpre.
      rewrite andThen_Ok in Hpre. destruct Hpre as ([] & Htruthy & Hpre).
      rewrite check_Ok in Htruthy. apply negb_false_iff in Htruthy.
      rewrite Named_andThen in Hpre. now split.
    + intros field Hin Hhas. specialize (Hflag field Hin). rewrite check_Ok in Hflag.
      rewrite Hhas in Hflag. cbn [andb] in Hflag. now apply negb_false_iff in Hflag.
  - intros (Hreq & Hmain & Hdev & Hst & Hpre & Hflag). exists tt. split.
    + apply forEach_Ok. intros field Hin. apply check_Ok.
      now rewrite (Hreq field Hin).
    + apply Named_andThen. split; [exact Hmain |].
      apply Named_andThen. split; [exact Hdev |].
      apply andThen_Ok. exists tt. split.
      * destruct (isTruthy (property "useStaging" config)); [| reflexivity].
        apply Named_andThen. split; [now apply Hst | reflexivity].
      * apply andThen_Ok. exists tt. split.
        -- apply forEach_Ok. intros prefix Hin. cbv zeta.
           destruct (Hpre prefix Hin) as [Htruthy Hname].
           apply andThen_Ok. exists tt. split; [apply check_Ok; now rewrite Htruthy |].
           apply Named_andThen. split; [exact Hname | reflexivity].
        -- apply andThen_Ok. exists tt. split; [| reflexivity].
           apply forEach_Ok. intros field Hin. apply check_Ok.
           destruct (has field config) eqn:Hhas; [| reflexivity].
           now rewrite (Hflag field Hin Hhas).
Qed.

Lemma validateConfig_true (config : list (string * Value)) (b : bool) :
  validateConfig config = Ok b -> b = true.
Proof.
  unfold validateConfig. intros H.
  repeat (apply andThen_Ok in H; destruct H as (? & _ & H)).
  now injection H as <-.
Qed.

Lemma validateConfig_Exit (config : list (string * Value)) (text : string) :
  validateConfig config = Exit text ->
  (exists rest, text = errorMark ++ "Missing required " ++ rest) \/
  (exists rest, text = errorMark ++ "Branch name '" ++ rest) \/
  (exists rest, text = errorMark ++ "Invalid branch name '" ++ rest) \/
  (exists rest, text = errorMark ++ "Invalid value for '" ++ rest).
Proof.
  assert (Hname : forall name,
            isValidBranchName name = Exit text ->
            (exists rest, text = errorMark ++ "Missing required " ++ rest) \/
            (exists rest, text = errorMark ++ "Branch name '" ++ rest) \/
            (exists rest, text = errorMark ++ "Invalid branch name '" ++ rest) \/
            (exists rest, text = errorMark ++ "Invalid value for '" ++ rest)).
  { intros name H. destruct (isValidBranchName_Exit _ _ H) as [K | K]; auto. }
  unfold validateConfig. intros H.
  apply andThen_Exit in H. destruct H as [H | (? & _ & H)].
  { apply forEach_Exit in H. destruct H as (field & _ & H).
    apply check_Exit in H. destruct H as [_ ->]. left. eexists. reflexivity. }
  apply andThen_Exit in H. destruct H as [H | (? & _ & H)]; [now apply Hname in H |].
  apply andThen_Exit in H. destruct H as [H | (? & _ & H)]; [now apply Hname in H |].
  apply andThen_Exit in H. destruct H as [H | (? & _ & H)].
  { destruct (isTruthy (property "useStaging" config)); [| discriminate H].
    apply andThen_Exit in H. destruct H as [H | (? & _ & H)];
      [now apply Hname in H | discriminate H]. }
  apply andThen_Exit in H. destruct H as [H | (? & _ & H)].
  { apply forEach_Exit in H. destruct H as (prefix & _ & H). cbv zeta in H.
    apply andThen_Exit in H. destruct H as [H | (? & _ & H)].
    { apply check_Exit in H. destruct H as [_ ->]. left. eexists. reflexivity. }
    apply andThen_Exit in H. destruct H as [H | (valid & Hvalid & H)];
      [now apply Hname in H |].
    apply isValidBranchName_flag in Hvalid. subst valid. discriminate H. }
  apply andThen_Exit in H. destruct H as [H | (? & _ & H)]; [| discriminate H].
  apply forEach_Exit in H. destruct H as (field & _ & H).
  apply check_Exit in H. destruct H as [_ ->].
  right. right. right. eexists. reflexivity.
Qed.

(** X16.  What [validateConfig] accepts and what it answers.  It returns
    exactly for the objects whose main branch, develop branch and prefixes
    are truthy, whose main and develop branch pass the name validation,
    whose staging branch passes it when [useStaging] is truthy, whose four
    prefixes are truthy and pass it, and whose flags, where present, are
    booleans.  It never returns [false], and it never exits with the message
    of an invalid prefix: a prefix with a character that is not allowed is
    reported by the name validation as an invalid branch name. *)
Theorem validateConfig_outcomes (config : list (string * Value)) :
  (validateConfig config = Ok true <-> Valid config) /\
  validateConfig config <> Ok false /\
  forall prefix value, validateConfig config <> Exit (invalidPrefixText prefix value).
Proof.
  split; [apply validateConfig_Valid |]. split.
  - intros H. apply validateConfig_true in H. discriminate H.
  - intros prefix value H. apply validateConfig_Exit in H. unfold invalidPrefixText in H.
    destruct H as [(rest & H) | [(rest & H) | [(rest & H) | (rest & H)]]];
      cbn in H; discriminate H.
Qed.

(** *** The configuration of an instance *)

Lemma property_missing (key : string) (fields : list (string * Value)) :
  has key fields = false -> property key fields = Undefined.
Proof.
  unfold has. induction fields as [| [k v] rest IH]; [reflexivity |].
  cbn [existsb property fst]. destruct (String.eqb k key); [discriminate | exact IH].
Qed.

Lemma property_spread (key : string) (a b : list (string * Value)) :
  property key (spread a b) = if has key b then property key b else property key a.
Proof.
  unfold spread, has. induction b as [| [k v] rest IH]; [reflexivity |].
  cbn [app existsb property fst]. destruct (String.eqb k key); [reflexivity | exact IH].
Qed.

Lemma has_spread (key : string) (a b : list (string * Value)) :
  has key (spread a b) = has key b || has key a.
Proof. unfold spread, has. apply existsb_app. Qed.

Lemma construct_Ok (config merged : list (string * Value)) :
  construct config = Ok merged <->
  merged = spread defaultObject config /\ Valid (spread defaultObject config).
Proof.
  unfold construct. cbv zeta. rewrite andThen_Ok. split.
  - intros (b & Hv & [= <-]). split; [reflexivity |].
    pose proof (validateConfig_true _ _ Hv) as ->. now apply validateConfig_Valid.
  - intros [-> Hv]. exists true. split; [now apply validateConfig_Valid | reflexivity].
Qed.

Lemma construct_Exit (config : list (string * Value)) :
  ~ Valid (spread defaultObject config) -> exists text, construct config = Exit text.
Proof.
  intros Hno. destruct (construct config) as [merged | text] eqn:E.
  - apply construct_Ok in E. destruct E as [_ Hv]. contradiction.
  - now exists text.
Qed.

(** X17.  The constructor merges the given object over the defaults key by
    key at the top level only: when the object brings its own [prefixes],
    the default prefixes are not filled in, and an object that leaves one of
    the four prefixes out, or gives a falsy one, makes the constructor exit. *)
Theorem partial_prefixes_rejected (config pre : list (string * Value))
    (prefix : string) :
  property "prefixes" config = Object pre ->
  In prefix ["feature"; "release"; "bugfix"; "hotfix"] ->
  isTruthy (property prefix pre) = false ->
  exists text, construct config = Exit text.
Proof.
  intros Hpre Hin Hfalsy. apply construct_Exit. intros (_ & _ & _ & _ & Hv & _).
  destruct (Hv prefix Hin) as [Htruthy _].
  rewrite property_spread in Htruthy.
  destruct (has "prefixes" config) eqn:Hhas.
  - rewrite Hpre in Htruthy. cbn [get] in Htruthy. congruence.
  - rewrite (property_missing _ _ Hhas) in Hpre. discriminate Hpre.
Qed.

(** X18.  The validation does not ask for a staging branch: switching
    [useStaging] on in an object that names no staging branch keeps an
    accepted object accepted. *)
Theorem staging_needs_no_branch (config merged : list (string * Value)) :
  has "stagingBranch" config = false ->
  construct config = Ok merged ->
  construct (("useStaging", Boolean true) :: config) =
  Ok (("useStaging", Boolean true) :: merged).
Proof.
  intros Hno H. apply construct_Ok in H. destruct H as [-> Hv].
  apply construct_Ok. split; [reflexivity |].
  destruct Hv as (Hreq & Hmain & Hdev & Hst & Hpre & Hflag).
  assert (Hsame : forall key, String.eqb "useStaging" key = false ->
            property key (spread defaultObject (("useStaging", Boolean true) :: config)) =
            property key (spread defaultObject config)).
  { intros key Hk. unfold spread. cbn [app property]. now rewrite Hk. }
  split; [| split; [| split; [| split; [| split]]]].
  - intros field Hin. rewrite Hsame; [now apply Hreq |].
    destruct Hin as [<- | [<- | [<- | []]]]; reflexivity.
  - unfold Named in *. now rewrite Hsame.
  - unfold Named in *. now rewrite Hsame.
  - intros _. rewrite Hsame by reflexivity. rewrite property_spread, Hno.
    reflexivity.
  - intros prefix Hin. rewrite Hsame by reflexivity. now apply Hpre.
  - intros field Hin Hhas.
    destruct (String.eqb "useStaging" field) eqn:Hk.
    + apply String.eqb_eq in Hk. subst field. reflexivity.
    + rewrite Hsame by exact Hk. apply Hflag; [exact Hin |].
      unfold spread, has in *. cbn [app existsb fst] in Hhas.
      now rewrite Hk in Hhas.
Qed.

Lemma Named_Text (name : string) : Named (Text name) <-> nameChars name = true.
Proof.
  unfold Named, isValidBranchName.
  cbn [nameArg toString isArray andb firstOrSelf Js.showOpt].
  rewrite test_invalidChars, negb_involutive.
  destruct (nameChars name); cbn [negb]; split; try reflexivity; discriminate.
Qed.

Lemma asText_Some (v : Value) (name : string) : asText v = Some name -> v = Text name.
Proof. destruct v; cbn [asText]; congruence. Qed.

Lemma good_name (v : Value) (name : string) :
  asText v = Some name -> isTruthy v = true -> Named v -> goodName name = true.
Proof.
  intros Hv Ht Hn. apply asText_Some in Hv. subst v. unfold goodName.
  cbn [isTruthy] in Ht. rewrite Ht. now apply Named_Text.
Qed.

(** X19.  What the constructor guarantees to the engine.  In the
    configuration of an instance that the constructor has accepted, the main
    branch, the develop branch and the four prefixes are non-empty and hold
    only letters, digits, hyphens, underscores, dots and slashes; with
    staging on, a staging branch that is named holds only such characters
    (it may be empty). *)
Theorem constructed_config (config merged : list (string * Value)) (cfg : Config) :
  construct config = Ok merged ->
  toConfig merged = Some cfg ->
  goodName (mainBranch cfg) = true /\
  goodName (developBranch cfg) = true /\
  goodName (feature (prefixes cfg)) = true /\
  goodName (release (prefixes cfg)) = true /\
  goodName (bugfix (prefixes cfg)) = true /\
  goodName (hotfix (prefixes cfg)) = true /\
  (useStaging cfg = true ->
   forall name, stagingBranch cfg = Some name -> nameChars name = true).
Proof.
  intros H Hc. apply construct_Ok in H. destruct H as [<- Hv].
  destruct Hv as (Hreq & Hmain & Hdev & Hst & Hpre & _).
  unfold toConfig in Hc.
  destruct (asText (property "mainBranch" merged)) as [main |] eqn:Emain;
    [| discriminate Hc].
  destruct (asText (property "developBranch" merged)) as [develop |] eqn:Edev;
    [| discriminate Hc].
  destruct (asFlag (property "useStaging" merged)) as [staging |] eqn:Est;
    [| discriminate Hc].
  destruct (asFlag (property "pushBranches" merged)) as [push |]; [| discriminate Hc].
  destruct (asFlag (property "createBranches" merged)) as [create |];
    [| discriminate Hc].
  destruct (asFlag (property "debug" merged)) as [dbg |]; [| discriminate Hc].
  destruct (toPrefixes (property "prefixes" merged)) as [pre |] eqn:Epre;
    [| discriminate Hc].
  unfold toPrefixes in Epre.
  destruct (asText (get (property "prefixes" merged) "feature")) as [f |] eqn:Ef;
    [| discriminate Epre].
  destruct (asText (get (property "prefixes" merged) "release")) as [r |] eqn:Er;
    [| discriminate Epre].
  destruct (asText (get (property "prefixes" merged) "bugfix")) as [b |] eqn:Eb;
    [| discriminate Epre].
  destruct (asText (get (property "prefixes" merged) "hotfix")) as [h |] eqn:Eh;
    [| discriminate Epre].
  injection Epre as <-.
  assert (Hgood : goodName main = true /\ goodName develop = true /\
                  goodName f = true /\ goodName r = true /\
                  goodName b = true /\ goodName h = true).
  { split; [apply (good_name _ _ Emain); [apply Hreq; cbn; tauto | exact Hmain] |].
    split; [apply (good_name _ _ Edev); [apply Hreq; cbn; tauto | exact Hdev] |].
    split; [apply (good_name _ _ Ef); apply Hpre; cbn; tauto |].
    split; [apply (good_name _ _ Er); apply Hpre; cbn; tauto |].
    split; [apply (good_name _ _ Eb); apply Hpre; cbn; tauto |].
    apply (good_name _ _ Eh); apply Hpre; cbn; tauto. }
  destruct Hgood as (G1 & G2 & G3 & G4 & G5 & G6).
  destruct (property "stagingBranch" merged) as [| | | | name | |] eqn:Ename;
    try discriminate Hc; injection Hc as <-; cbn [mainBranch developBranch prefixes
      feature release bugfix hotfix useStaging stagingBranch];
    (repeat (split; [assumption |])).
  - intros _ name H. discriminate H.
  - intros -> name' [= <-]. apply Named_Text. apply Hst.
    destruct (property "useStaging" merged); cbn [asFlag] in Est; try discriminate Est.
    now injection Est as ->.
Qed.

(** ** The deletion of all local branches *)

Section DeleteAll.
Context {World : Type}.
Variable exec : string -> World -> ShellResult * World.
Variable config : Config.
Implicit Types (s : State World).

(** A line of the listing that marks the checked-out branch is kept by the
    filter, whatever the name of the branch: the mark is removed and the
    blank after it stays. *)
Lemma branchesOf_current (r : ShellResult) (line rest : string) :
  In line (Js.split Js.newline (Js.trim (stdout r))) ->
  Js.trim line = String "*" (String " " rest) ->
  In (String " " rest) (branchesOf r).
Proof.
  intros Hin Hline. unfold branchesOf. apply filter_In. split; [| reflexivity].
  apply in_map_iff. exists line. split; [| exact Hin].
  rewrite Hline. reflexivity.
Qed.

(** X20.  When the listing of the local branches has a line that marks the
    checked-out branch, [deleteAllLocalBranches] never finds that there is
    nothing to delete, also when that branch is the main or the develop
    branch and there is no other: it puts the deletion in the queue and runs
    the queue. *)
Theorem deleteAllLocalBranches_current s (line rest : string) :
  Js.truthy (stderr (fst (exec listQuery (world s)))) = false ->
  In line (Js.split Js.newline (Js.trim (stdout (fst (exec listQuery (world s)))))) ->
  Js.trim line = String "*" (String " " rest) ->
  deleteAllLocalBranches exec config s =
  runCommands exec config
    {| commands := (commands s ++ [deleteAllCmd])%list;
       world := snd (exec listQuery (world s));
       history := (history s ++ [Executed listQuery (fst (exec listQuery (world s)));
                                 Enqueued deleteAllCmd])%list |}.
Proof.
  unfold deleteAllLocalBranches, bind, shellExec. fold listQuery.
  destruct (exec listQuery (world s)) as [r w]. cbn [fst snd].
  intros Herr Hin Hline. unfold exitIf. rewrite Herr. cbn [ret lift].
  pose proof (branchesOf_current r line rest Hin Hline) as Hkept.
  destruct (branchesOf r) as [| b bs]; [destruct Hkept |].
  cbn [List.length Nat.eqb]. unfold addCommand. cbn [commands world history].
  fold deleteAllCmd. now rewrite <- app_assoc.
Qed.

End DeleteAll.

(** ** A flag without effect *)

(** X21.  The [createBranches] flag of the configuration has no effect on
    any operation of an instance: every start, every finish and the deletion
    of all local branches run the same with the flag on and off. *)
Theorem createBranches_unused {World : Type}
    (exec : string -> World -> ShellResult * World) (config : Config) (flag : bool)
    (kind : Kind) (words : list string) (s : State World) :
  start exec (withCreateBranches flag config) kind words s =
    start exec config kind words s /\
  finish exec (withCreateBranches flag config) kind words s =
    finish exec config kind words s /\
  deleteAllLocalBranches exec (withCreateBranches flag config) s =
    deleteAllLocalBranches exec config s.
Proof. destruct config, kind; repeat split; reflexivity. Qed.

(** ** The further properties on the sample repositories *)

Lemma debug_runs_nothing_witness :
  ((exists text,
      fst (start Repo.git Cases.debugging Feature ["login"] (fresh onDevelop)) =
      Exit text) /\
   forall c r,
     In (Executed c r)
        (history (snd (start Repo.git Cases.debugging Feature ["login"]
                         (fresh onDevelop)))) ->
     isQuery c = true) /\
  ((exists text,
      fst (finish Repo.git Cases.debugging Feature ["login"] (fresh onDevelop)) =
      Exit text) /\
   forall c r,
     In (Executed c r)
        (history (snd (finish Repo.git Cases.debugging Feature ["login"]
                         (fresh onDevelop)))) ->
     isQuery c = true).
Proof.
  apply (debug_runs_nothing Repo.git Cases.debugging Feature ["login"] onDevelop).
  reflexivity.
Defined.

Lemma finish_without_staging_branch_witness :
  (exists text,
     fst (finish Repo.git Cases.stagingUnnamed Feature ["login"]
            (fresh featureWithCommit)) = Exit text) /\
  forall c r,
    In (Executed c r)
       (history (snd (finish Repo.git Cases.stagingUnnamed Feature ["login"]
                        (fresh featureWithCommit)))) ->
    isQuery c = true.
Proof.
  apply (finish_without_staging_branch Repo.git Cases.stagingUnnamed Feature ["login"]
           featureWithCommit).
  - reflexivity.
  - intros name H. discriminate H.
Defined.

Lemma finish_queue_witness :
  Finishes true "feature/true" (finishPlan defaultConfig Feature ["login"])
    (commands (snd (finish Repo.git defaultConfig Feature ["login"]
                      (fresh featureWithCommit)))).
Proof.
  apply (finish_queue Repo.git defaultConfig Feature ["login"] featureWithCommit).
  vm_compute. reflexivity.
Defined.

Lemma start_queue_witness :
  exists c,
    commands (snd (start Repo.git defaultConfig Hotfix ["login"] (fresh onDevelop))) =
      (c ++ [createCmd "hotfix/true" "main"])%list /\
    optCheckout "main" c.
Proof.
  apply (start_queue Repo.git defaultConfig Hotfix ["login"] onDevelop).
  vm_compute. reflexivity.
Defined.

Lemma start_never_pushes_witness : isPush (createCmd "feature/true" "develop") = false.
Proof.
  apply (start_never_pushes Repo.git defaultConfig Feature ["login"] onDevelop).
  vm_compute. tauto.
Defined.

Lemma finish_without_push_witness : isPush (deleteCmd "feature/true") = false.
Proof.
  apply (finish_without_push Repo.git Cases.local Feature ["login"] featureWithCommit).
  - reflexivity.
  - vm_compute. tauto.
Defined.

Lemma start_existing_branch_witness :
  start Repo.git defaultConfig Feature ["login"] (fresh featureWithCommit) =
  (Exit (errorMark ++ "feature/true already exists"),
   afterFirst Repo.git (verifyQuery "feature/true") featureWithCommit).
Proof.
  apply (start_existing_branch Repo.git defaultConfig Feature ["login"]
           featureWithCommit).
  - exists true. reflexivity.
  - reflexivity.
Defined.

Lemma finish_missing_branch_witness :
  finish Repo.git defaultConfig Release ["1.0.0"] (fresh onDevelop) =
  (Exit (errorMark ++ "release/1.0.0 does not exist"),
   afterFirst Repo.git (verifyQuery "release/1.0.0") onDevelop).
Proof.
  apply (finish_missing_branch Repo.git defaultConfig Release ["1.0.0"] onDevelop).
  - exists (Some "1.0.0"). reflexivity.
  - reflexivity.
Defined.

Lemma rejected_words_witness :
  exists text,
    start Repo.git defaultConfig Feature ["my"; "feature"] (fresh onDevelop) =
      (Exit text, fresh onDevelop) /\
    finish Repo.git defaultConfig Feature ["my"; "feature"] (fresh onDevelop) =
      (Exit text, fresh onDevelop).
Proof.
  apply (rejected_words Repo.git defaultConfig Feature ["my"; "feature"]
           (fresh onDevelop)).
  intros (v & H). discriminate H.
Defined.

Lemma partial_prefixes_rejected_witness :
  exists text, construct Cases.ownPrefixes = Exit text.
Proof.
  apply (partial_prefixes_rejected Cases.ownPrefixes [("feature", Text "feat/")]
           "release").
  - reflexivity.
  - cbn. tauto.
  - reflexivity.
Defined.

Lemma staging_needs_no_branch_witness :
  construct (("useStaging", Boolean true) :: Cases.renamedMain) =
  Ok (("useStaging", Boolean true) :: spread defaultObject Cases.renamedMain).
Proof.
  apply (staging_needs_no_branch Cases.renamedMain
           (spread defaultObject Cases.renamedMain)).
  - reflexivity.
  - vm_compute. reflexivity.
Defined.

Lemma constructed_config_witness :
  goodName "main" = true /\ goodName "develop" = true /\
  goodName "feature/" = true /\ goodName "release/" = true /\
  goodName "bugfix/" = true /\ goodName "hotfix/" = true /\
  (true = true -> forall name, Some "staging" = Some name -> nameChars name = true).
Proof.
  apply (constructed_config Cases.stagingNamed
           (spread defaultObject Cases.stagingNamed) withStaging).
  - vm_compute. reflexivity.
  - reflexivity.
Defined.

Lemma deleteAllLocalBranches_current_witness :
  deleteAllLocalBranches (constantly Cases.mainAndDevelop) defaultConfig (fresh tt) =
  runCommands (constantly Cases.mainAndDevelop) defaultConfig
    {| commands := [deleteAllCmd];
       world := tt;
       history := [Executed listQuery
                     {| code := 0; stdout := Cases.mainAndDevelop;
                        stderr := EmptyString |};
                   Enqueued deleteAllCmd] |}.
Proof.
  apply (deleteAllLocalBranches_current (constantly Cases.mainAndDevelop) defaultConfig
           (fresh tt) "* main" "main").
  - reflexivity.
  - vm_compute. tauto.
  - reflexivity.
Defined.
